(** * FluidAudio sample codec: PCM16 <-> float32

    A shallow embedding of [AudioBufferUtils::pcm16ToFloat] and
    [AudioBufferUtils::floatToPcm16] (src/cpp/FluidAudioTurboModule.cpp)
    together with the properties the specification states about them.

    Modelling conventions.
    - A C++ [float] is an IEEE-754 binary32 number: a [spec_float] of the
      Standard Library's [SpecFloat] at precision 24 and [emax] 128, with
      round-to-nearest-even arithmetic ([SFmul], [SFdiv]).
    - A [uint8_t] buffer is a [list byte]; an [int16_t] is a [Z] in
      [-32768, 32767].  The [reinterpret_cast] between [uint8_t*] and
      [int16_t*] is read as the little-endian layout of the supported
      targets.
    - Behaviour the C++ standard leaves undefined (a read past the end of
      the buffer, a float-to-integer conversion whose truncated value does
      not fit) is the result [None].
    - Where a statement is about what a call does to the memory of the
      program, the two functions are written a second time, in [Machine],
      as computations on a memory of objects: the buffer behind the
      pointer, the vectors passed by reference, and the vector a call
      allocates and returns. *)

From Stdlib Require Import ZArith QArith Qabs Lia SpecFloat.
From Stdlib Require Import Strings.Byte.
From stdpp Require Import base option list gmap.

Local Open Scope Z_scope.

(** ** binary32 *)

Module F32.

Definition prec : Z := 24.
Definition emax : Z := 128.

Definition valid (x : spec_float) : bool := valid_binary prec emax x.

Definition mul : spec_float -> spec_float -> spec_float := SFmul prec emax.
Definition div : spec_float -> spec_float -> spec_float := SFdiv prec emax.

(** [a < b] on floats; false as soon as one side is a NaN. *)
Definition lt (a b : spec_float) : bool := SFltb a b.
Definition le (a b : spec_float) : bool := SFleb a b.

(** [static_cast<float>] of an integer. *)
Definition of_int (z : Z) : spec_float := binary_normalize prec emax z 0 false.

(** The literals of the source. *)
Definition zero : spec_float := S754_zero false.
Definition one : spec_float := S754_finite false 8388608 (-23).
Definition minus_one : spec_float := S754_finite true 8388608 (-23).
Definition c32767 : spec_float := S754_finite false 16776704 (-9).
Definition c32768 : spec_float := S754_finite false 8388608 (-8).

(** Integer part of a finite float, rounded toward zero. *)
Definition trunc (x : spec_float) : option Z :=
  match x with
  | S754_zero _ => Some 0
  | S754_finite s m e => Some (cond_Zopp s (Z.shiftl (Zpos m) e))
  | S754_infinity _ | S754_nan => None
  end.

(** The exact rational value of a float (NaN and infinities have none). *)
Definition to_Q (x : spec_float) : option Q :=
  match x with
  | S754_zero _ => Some (0 # 1)
  | S754_finite s m e =>
      Some (if 0 <=? e then inject_Z (cond_Zopp s (Zpos m * 2 ^ e))
            else Qmake (cond_Zopp s (Zpos m)) (Z.to_pos (2 ^ (- e))))
  | S754_infinity _ | S754_nan => None
  end.

End F32.

(** ** 16-bit integers and their little-endian layout *)

Module Int16.

Definition min_signed : Z := -32768.
Definition max_signed : Z := 32767.

Definition in_range (z : Z) : bool := (min_signed <=? z) && (z <=? max_signed).

Definition unsigned_of_byte (b : byte) : Z := Z.of_N (Byte.to_N b).

Definition byte_of_Z (z : Z) : byte :=
  match Byte.of_N (Z.to_N (Z.land z 255)) with
  | Some b => b
  | None => x00
  end.

(** The [int16_t] stored as the byte pair [lo], [hi]. *)
Definition of_bytes (lo hi : byte) : Z :=
  let u := Z.lor (unsigned_of_byte lo) (Z.shiftl (unsigned_of_byte hi) 8) in
  if u <? 32768 then u else u - 65536.

Definition lo_byte (v : Z) : byte := byte_of_Z v.
Definition hi_byte (v : Z) : byte := byte_of_Z (Z.shiftr v 8).

(** [static_cast<int16_t>] of a float: truncation toward zero, undefined
    when the truncated value is not an [int16_t]. *)
Definition of_float (x : spec_float) : option Z :=
  z ← F32.trunc x;
  if in_range z then Some z else None.

End Int16.

(** ** The codec *)

Module AudioBufferUtils.

(** [pcmData[i]] for [pcmData = reinterpret_cast<const int16_t*>(data)]. *)
Definition load_int16 (data : list byte) (i : nat) : option Z :=
  lo ← data !! (2 * i)%nat;
  hi ← data !! (2 * i + 1)%nat;
  Some (Int16.of_bytes lo hi).

(** [dest[i] = v] for [dest = reinterpret_cast<int16_t*>(pcmData.data())]. *)
Definition store_int16 (pcmData : list byte) (i : nat) (v : Z) : list byte :=
  <[(2 * i + 1)%nat := Int16.hi_byte v]> (<[(2 * i)%nat := Int16.lo_byte v]> pcmData).

(** [std::min(a, b)] is [(b < a) ? b : a]; [std::max(a, b)] is
    [(a < b) ? b : a]. *)
Definition std_min (a b : spec_float) : spec_float := if F32.lt b a then b else a.
Definition std_max (a b : spec_float) : spec_float := if F32.lt a b then b else a.

(** The body of the decoding loop, iterations [i], [i+1], ..., [i+n-1]. *)
Fixpoint pcm16ToFloat_loop (data : list byte) (n i : nat)
    (samples : list spec_float) : option (list spec_float) :=
  match n with
  | O => Some samples
  | S n' =>
      v ← load_int16 data i;
      pcm16ToFloat_loop data n' (S i)
        (<[i := F32.div (F32.of_int v) F32.c32768]> samples)
  end.

Definition pcm16ToFloat (data : list byte) (byteLength : nat)
    : option (list spec_float) :=
  let sampleCount := (byteLength / 2)%nat in
  let samples := replicate sampleCount F32.zero in
  pcm16ToFloat_loop data sampleCount 0 samples.

Definition clamp (s : spec_float) : spec_float :=
  std_max F32.minus_one (std_min F32.one s).

(** The body of the encoding loop, iterations [i], [i+1], ..., [i+n-1]. *)
Fixpoint floatToPcm16_loop (samples : list spec_float) (n i : nat)
    (pcmData : list byte) : option (list byte) :=
  match n with
  | O => Some pcmData
  | S n' =>
      s ← samples !! i;
      let clamped := clamp s in
      v ← Int16.of_float (F32.mul clamped F32.c32767);
      floatToPcm16_loop samples n' (S i) (store_int16 pcmData i v)
  end.

Definition floatToPcm16 (samples : list spec_float) : option (list byte) :=
  let pcmData := replicate (length samples * 2) x00 in
  floatToPcm16_loop samples (length samples) 0 pcmData.

(** [arrayBufferToFloatSamples]: the buffer's size and data are handed to
    [pcm16ToFloat]. *)
Definition arrayBufferToFloatSamples (buffer : list byte)
    : option (list spec_float) :=
  let byteLength := length buffer in
  pcm16ToFloat buffer byteLength.

End AudioBufferUtils.

Import AudioBufferUtils.

(** The two operations of the specification. *)
Definition decode (bytes : list byte) : option (list spec_float) :=
  arrayBufferToFloatSamples bytes.

Definition encode (samples : list spec_float) : option (list byte) :=
  floatToPcm16 samples.

(** ** The codec on the memory of the program *)

Module Machine.

(** The objects a call can reach: byte storage (the bytes behind a
    [const uint8_t*], the storage of a [std::vector<uint8_t>]) and the
    storage of a [std::vector<float>]. *)
Inductive object : Type :=
| Bytes (contents : list byte)
| Floats (contents : list spec_float).

(** The memory is the finite map of the live objects, by address.  A
    computation reads and writes the memory and gives a result, or is
    undefined. *)
Definition M (A : Type) : Type :=
  gmap nat object -> option (A * gmap nat object).

Definition ret {A : Type} (a : A) : M A := fun h => Some (a, h).

Definition bind {A B : Type} (m : M A) (f : A -> M B) : M B :=
  fun h => match m h with
           | Some (a, h') => f a h'
           | None => None
           end.

Notation "x <- m ;; f" := (bind m (fun x => f))
  (at level 100, m at next level, right associativity).

(** [std::vector<float> v(n)] and [std::vector<uint8_t> v(n)]: a new
    object, at an address no live object has, of [n] zeros.  Running out
    of memory is not modelled: the allocation always succeeds. *)
Definition new_floats (n : nat) : M nat :=
  fun h => let p := fresh (dom h) in
           Some (p, <[p := Floats (replicate n F32.zero)]> h).

Definition new_bytes (n : nat) : M nat :=
  fun h => let p := fresh (dom h) in
           Some (p, <[p := Bytes (replicate n x00)]> h).

(** [v.size()]. *)
Definition size_floats (p : nat) : M nat :=
  fun h => match h !! p with
           | Some (Floats l) => Some (length l, h)
           | _ => None
           end.

(** Reading element [i] of the object at [p]. *)
Definition load_byte (p i : nat) : M byte :=
  fun h => match h !! p with
           | Some (Bytes l) =>
               match l !! i with
               | Some b => Some (b, h)
               | None => None
               end
           | _ => None
           end.

Definition load_float (p i : nat) : M spec_float :=
  fun h => match h !! p with
           | Some (Floats l) =>
               match l !! i with
               | Some x => Some (x, h)
               | None => None
               end
           | _ => None
           end.

(** Writing element [i] of the object at [p]. *)
Definition store_byte (p i : nat) (b : byte) : M unit :=
  fun h => match h !! p with
           | Some (Bytes l) =>
               if (i <? length l)%nat
               then Some (tt, <[p := Bytes (<[i := b]> l)]> h)
               else None
           | _ => None
           end.

Definition store_float (p i : nat) (x : spec_float) : M unit :=
  fun h => match h !! p with
           | Some (Floats l) =>
               if (i <? length l)%nat
               then Some (tt, <[p := Floats (<[i := x]> l)]> h)
               else None
           | _ => None
           end.

(** [reinterpret_cast<const int16_t*>(p)[i]] and
    [reinterpret_cast<int16_t*>(p)[i] = v]. *)
Definition load_int16 (p i : nat) : M Z :=
  lo <- load_byte p (2 * i) ;;
  hi <- load_byte p (2 * i + 1) ;;
  ret (Int16.of_bytes lo hi).

Definition store_int16 (p i : nat) (v : Z) : M unit :=
  _ <- store_byte p (2 * i) (Int16.lo_byte v) ;;
  store_byte p (2 * i + 1) (Int16.hi_byte v).

(** [static_cast<int16_t>] of a float. *)
Definition int16_of_float (x : spec_float) : M Z :=
  fun h => match Int16.of_float x with
           | Some v => Some (v, h)
           | None => None
           end.

Fixpoint pcm16ToFloat_loop (data samples : nat) (n i : nat) : M unit :=
  match n with
  | O => ret tt
  | S n' =>
      v <- load_int16 data i ;;
      _ <- store_float samples i (F32.div (F32.of_int v) F32.c32768) ;;
      pcm16ToFloat_loop data samples n' (S i)
  end.

(** [pcm16ToFloat(data, byteLength)]; the result is the address of the
    vector returned. *)
Definition pcm16ToFloat (data : nat) (byteLength : nat) : M nat :=
  let sampleCount := (byteLength / 2)%nat in
  samples <- new_floats sampleCount ;;
  _ <- pcm16ToFloat_loop data samples sampleCount 0 ;;
  ret samples.

Fixpoint floatToPcm16_loop (samples pcmData : nat) (n i : nat) : M unit :=
  match n with
  | O => ret tt
  | S n' =>
      s <- load_float samples i ;;
      let clamped := clamp s in
      v <- int16_of_float (F32.mul clamped F32.c32767) ;;
      _ <- store_int16 pcmData i v ;;
      floatToPcm16_loop samples pcmData n' (S i)
  end.

(** [floatToPcm16(samples)]; the result is the address of the vector
    returned. *)
Definition floatToPcm16 (samples : nat) : M nat :=
  size <- size_floats samples ;;
  pcmData <- new_bytes (size * 2) ;;
  _ <- floatToPcm16_loop samples pcmData size 0 ;;
  ret pcmData.

(** A caller that decodes a buffer, encodes a vector and decodes the
    buffer a second time; the result is the three addresses returned. *)
Definition decode_encode_decode (data byteLength samples : nat)
    : M (nat * nat * nat) :=
  first <- pcm16ToFloat data byteLength ;;
  pcmData <- floatToPcm16 samples ;;
  second <- pcm16ToFloat data byteLength ;;
  ret (first, pcmData, second).

End Machine.

(** ** What the statements below speak of *)

(** The integer the encoding loop stores for the sample [s]. *)
Definition sample_to_int16 (s : spec_float) : option Z :=
  Int16.of_float (F32.mul (clamp s) F32.c32767).

(** The float the decoding loop stores for the byte pair [lo], [hi]. *)
Definition int16_to_sample (lo hi : byte) : spec_float :=
  F32.div (F32.of_int (Int16.of_bytes lo hi)) F32.c32768.

(** [decode(encode([s]))[0]]. *)
Definition round_trip (s : spec_float) : option spec_float :=
  bytes ← encode [s];
  out ← decode bytes;
  out !! 0%nat.

(** Clamping in the words of the specification: a value below the range
    becomes the lower bound, a value above it the upper bound, and a value
    inside it is kept.  (A NaN compares with nothing, so this says nothing
    about it.) *)
Definition is_clamped (s c : spec_float) : Prop :=
  (F32.lt s F32.minus_one = true -> c = F32.minus_one)
  /\ (F32.lt F32.one s = true -> c = F32.one)
  /\ (F32.le F32.minus_one s = true -> F32.le s F32.one = true -> c = s).

(** The float [x] is finite and its value is the rational [q]. *)
Definition has_value (x : spec_float) (q : Q) : Prop :=
  exists p, F32.to_Q x = Some p /\ (p == q)%Q.

(** [1.5f] and [-2.0f], the out-of-range inputs the specification tests. *)
Definition one_and_a_half : spec_float := S754_finite false 12582912 (-23).
Definition minus_two : spec_float := S754_finite true 8388608 (-22).

(** [0.5 + 2^-17], a float in the middle of the positive range. *)
Definition above_half : spec_float := S754_finite false 8388736 (-24).

(** [1 - 2^-16], a float close to the positive end of the range. *)
Definition near_one : spec_float := S754_finite false 16776960 (-24).

(** [-(0.5 + 2^-17)], the opposite of [above_half]. *)
Definition below_minus_half : spec_float := S754_finite true 8388736 (-24).

(** [-2^-20], a negative float whose product with [32767] is below one
    in magnitude. *)
Definition tiny_negative : spec_float := S754_finite true 8388608 (-43).

(** The float of bit pattern [0x3f7fbfff], about [0.99902]: its exact
    product with [32767] is a little below [32735]. *)
Definition rounds_up : spec_float := S754_finite false 16760831 (-24).

(** How the integer [v] stored for the clamped sample [c] stands to the
    exact product [32767 * c].  With [qc] the value of [c] and [qp] the
    value of the binary32 product [c * 32767.0f]:
    - [qp] is the exact product up to a relative error of [2^-24] or up to
      an absolute error of [2^-150] (which is what is left of the bound
      for a subnormal product);
    - [v] is [qp] truncated toward zero;
    - [v] is less than one away from the exact product, and is the exact
      product when that is an integer;
    - [v] is the exact product truncated toward zero, or the next integer
      away from zero. *)
Definition stored_for (c : spec_float) (v : Z) : Prop :=
  exists qc qp : Q,
    F32.to_Q c = Some qc
    /\ F32.to_Q (F32.mul c F32.c32767) = Some qp
    /\ ((Qabs (qp - (32767 # 1) * qc) * (16777216 # 1) <= Qabs ((32767 # 1) * qc))%Q
        \/ (Qabs (qp - (32767 # 1) * qc) <= 1 # (2 ^ 150))%Q)
    /\ v = Z.quot (Qnum qp) (Zpos (Qden qp))
    /\ (Qabs (inject_Z v - (32767 # 1) * qc) < 1)%Q
    /\ (forall K : Z, ((32767 # 1) * qc == inject_Z K)%Q -> v = K)
    /\ (v = Z.quot (Qnum ((32767 # 1) * qc)) (Zpos (Qden ((32767 # 1) * qc)))
        \/ v = Z.quot (Qnum ((32767 # 1) * qc)) (Zpos (Qden ((32767 # 1) * qc)))
               + Z.sgn (Qnum qc)).

(** ** What the proofs below compute with *)

(** The record reached after [k + 1] one-bit shifts of an exact mantissa. *)
Definition shifted (M : Z) (k : nat) : shr_record :=
  Build_shr_record (M / 2 ^ Z.of_nat (S k))
                   (Z.odd (M / 2 ^ Z.of_nat k))
                   (negb (M mod 2 ^ Z.of_nat k =? 0)).

(** On a finite non-zero float the two comparisons of [clamp] come down
    to one test on the exponent and the mantissa. *)
Definition below_one (m : positive) (e : Z) : bool :=
  match e ?= -23 with
  | Lt => true
  | Gt => false
  | Eq => match (m ?= 8388608)%positive with Lt => true | _ => false end
  end.

(** The 256 bytes and the 65536 values of an [int16_t], for the checks
    made by enumeration. *)
Definition all_bytes : list byte :=
  omap (fun n => Byte.of_N (N.of_nat n)) (seq 0 256).

(** The [len] integers from [start] on. *)
Fixpoint Zseq (start : Z) (len : nat) : list Z :=
  match len with
  | O => []
  | S len' => start :: Zseq (start + 1) len'
  end.

Definition int16_values : list Z := Zseq (-32768) (256 * 256).

Definition Qeq_opt (x : option Q) (q : Q) : bool :=
  match x with
  | Some p => Qeq_bool p q
  | None => false
  end.

(** What reading one byte pair must satisfy: the integer read is an
    [int16_t] congruent to [lo + 256 * hi]. *)
Definition of_bytes_ok (lo hi : byte) : bool :=
  let v := Int16.of_bytes lo hi in
  Int16.in_range v
  && (v mod 65536 =? Int16.unsigned_of_byte lo + 256 * Int16.unsigned_of_byte hi).

(** What normalising an [int16_t] must satisfy: the float stored is a valid
    binary32 number whose value is exactly that integer over 32768. *)
Definition normalise_ok (v : Z) : bool :=
  let x := F32.div (F32.of_int v) F32.c32768 in
  F32.valid x && Qeq_opt (F32.to_Q x) (v # 32768).

(** What storing an [int16_t] and reading it back must satisfy. *)
Definition store_load_ok (v : Z) : bool :=
  Int16.of_bytes (Int16.lo_byte v) (Int16.hi_byte v) =? v.

(** What decoding an [int16_t] and encoding the float again must satisfy:
    the integer comes back one step closer to zero. *)
Definition reencode_ok (v : Z) : bool :=
  match sample_to_int16 (F32.div (F32.of_int v) F32.c32768) with
  | Some w => w =? v - Z.sgn v
  | None => false
  end.

(** What reading a byte pair and storing the integer again must satisfy. *)
Definition load_store_ok (lo hi : byte) : bool :=
  let v := Int16.of_bytes lo hi in
  Byte.eqb (Int16.lo_byte v) lo && Byte.eqb (Int16.hi_byte v) hi.

(** ** The hand-over of the encoded bytes to the scripting runtime *)

(** [std::memcpy(dest, src, n)]: the first [n] bytes of [dest] become those
    of [src]; undefined when one of the two buffers is shorter than [n]. *)
Definition memcpy (dest src : list byte) (n : nat) : option (list byte) :=
  if (n <=? length dest)%nat && (n <=? length src)%nat
  then Some (take n src ++ drop n dest)
  else None.

(** [static_cast<int>] of a [size_t], [int] being 32 bits wide: the value
    modulo [2 ^ 32], read as a signed integer. *)
Definition int_of_size (n : nat) : Z :=
  let u := Z.of_nat n mod 2 ^ 32 in
  if u <? 2 ^ 31 then u else u - 2 ^ 32.

(** [floatSamplesToArrayBuffer].  The runtime's [ArrayBuffer] constructor is
    the parameter [new_ArrayBuffer]: called with a length it gives the
    bytes of the new buffer, or [None] when it throws. *)
Definition floatSamplesToArrayBuffer (new_ArrayBuffer : Z -> option (list byte))
    (samples : list spec_float) : option (list byte) :=
  pcmData ← floatToPcm16 samples;
  buffer ← new_ArrayBuffer (int_of_size (length pcmData));
  memcpy buffer pcmData (length pcmData).

(** A runtime whose constructor gives [n] bytes, all [fill], for a length
    [n >= 0] and throws for a negative one. *)
Definition filled_ArrayBuffer (fill : byte) (n : Z) : option (list byte) :=
  if 0 <=? n then Some (replicate (Z.to_nat n) fill) else None.

(** ** Rounding to nearest, ties to even, on integers *)

(** [M / P] rounded to the nearest integer, a tie going to the even one. *)
Definition rne (M P : Z) : Z :=
  let q := M / P in
  let r := M mod P in
  if 2 * r <? P then q
  else if 2 * r =? P then (if Z.even q then q else q + 1)
  else q + 1.

(** The integer part of the binary32 product of [m * 2 ^ e] and
    [32767.0f = 16776704 * 2 ^ -9]: the exact mantissa [M] loses the [n]
    low bits the format has no room for, by [rne], and the integer part of
    what is left is taken. *)
Definition scaled_int (m : positive) (e : Z) : Z :=
  let M := Zpos m * 16776704 in
  let E := e - 9 in
  let n := fexp F32.prec F32.emax (Zdigits2 M + E) - E in
  rne M (2 ^ n) / 2 ^ (- (E + n)).

(** The magnitude of the integer stored for the finite float of mantissa
    [m] and exponent [e]. *)
Definition magnitude_int (m : positive) (e : Z) : Z :=
  if below_one m e then scaled_int m e else 32767.

(** [1 - 2^-24], the largest float below [1.0]. *)
Definition below_full_scale : spec_float := S754_finite false 16777215 (-24).

(** * The literals of the source *)

(** The constants of [F32] are the binary32 numbers the literals of the
    source denote. *)
Lemma literal_values :
  has_value F32.one (1 # 1) /\ has_value F32.minus_one (-1 # 1)
  /\ has_value F32.c32767 (32767 # 1) /\ has_value F32.c32768 (32768 # 1)
  /\ F32.of_int 1 = F32.one /\ F32.of_int (-1) = F32.minus_one
  /\ F32.of_int 32767 = F32.c32767 /\ F32.of_int 32768 = F32.c32768
  /\ F32.of_int 0 = F32.zero.
Proof.
  repeat (split; [first [reflexivity | eexists; split; [reflexivity | vm_compute; reflexivity]] |]).
  reflexivity.
Qed.

(** * Rounding in [SpecFloat]

    Facts about the right shift and the rounding of [binary_round_aux],
    which [SFmul] ends with. *)

(** Powers of two with a non-negative exponent are positive. *)
Ltac pow2_pos := apply Z.pow_pos_nonneg; lia.

Section Shift.

Lemma iter_pos_nat {A} (f : A -> A) (p : positive) (x : A) :
  SpecFloat.iter_pos f p x = Nat.iter (Pos.to_nat p) f x.
Proof.
  revert x. induction p as [p IH | p IH |]; intros x; cbn [SpecFloat.iter_pos].
  - rewrite !IH, Pos2Nat.inj_xI. cbn [Nat.mul].
    rewrite Nat.add_0_r, Nat.iter_succ_r, Nat.iter_add. reflexivity.
  - rewrite !IH, Pos2Nat.inj_xO. cbn [Nat.mul].
    rewrite Nat.add_0_r, Nat.iter_add. reflexivity.
  - reflexivity.
Qed.

Lemma shr_1_nonneg (m : Z) (r s : bool) :
  0 <= m ->
  shr_1 (Build_shr_record m r s) = Build_shr_record (m / 2) (Z.odd m) (r || s).
Proof.
  intros Hm. rewrite <- Z.div2_div.
  destruct m as [| [p | p |] |]; try lia; reflexivity.
Qed.

Lemma sticky_step (M k : Z) :
  0 <= k ->
  (Z.odd (M / 2 ^ k) || negb (M mod 2 ^ k =? 0))%bool
  = negb (M mod 2 ^ (k + 1) =? 0).
Proof.
  intros Hk.
  assert (Hp : 0 < 2 ^ k) by pow2_pos.
  rewrite Z.pow_add_r by lia. change (2 ^ 1) with 2.
  rewrite Z.rem_mul_r by lia.
  pose proof (Z.mod_pos_bound M (2 ^ k) Hp) as Hlo.
  rewrite (Zmod_odd (M / 2 ^ k)).
  destruct (Z.odd (M / 2 ^ k)); cbn [orb].
  - symmetry. apply negb_true_iff, Z.eqb_neq. lia.
  - f_equal. f_equal. lia.
Qed.

Lemma iter_shr_1 (M : Z) (k : nat) :
  0 <= M ->
  Nat.iter (S k) shr_1 (Build_shr_record M false false) = shifted M k.
Proof.
  intros HM. induction k as [| k IH].
  - cbn [Nat.iter nat_rect]. rewrite shr_1_nonneg by assumption.
    unfold shifted. change (2 ^ Z.of_nat 1) with 2. change (2 ^ Z.of_nat 0) with 1.
    rewrite Z.div_1_r, Z.mod_1_r. reflexivity.
  - rewrite Nat.iter_succ, IH. unfold shifted.
    rewrite shr_1_nonneg by (apply Z.div_pos; [assumption | pow2_pos]).
    f_equal.
    + rewrite Z.div_div by (try pow2_pos; lia).
      rewrite (Nat2Z.inj_succ (S k)), Z.pow_succ_r by lia. f_equal. lia.
    + rewrite sticky_step by lia. rewrite (Nat2Z.inj_succ k). reflexivity.
Qed.

Lemma shr_exact (M e : Z) (n : positive) :
  0 <= M ->
  shr (Build_shr_record M false false) e (Zpos n)
  = (shifted M (Nat.pred (Pos.to_nat n)), e + Zpos n).
Proof.
  intros HM. cbn [shr]. rewrite iter_pos_nat.
  destruct (Pos2Nat.is_succ n) as [k Hk]. rewrite Hk. cbn [Nat.pred].
  rewrite iter_shr_1 by assumption. reflexivity.
Qed.

End Shift.

Section Digits.

Lemma digits2_pos_bounds (p : positive) :
  2 ^ (Zpos (digits2_pos p) - 1) <= Zpos p < 2 ^ Zpos (digits2_pos p).
Proof.
  induction p as [p IH | p IH |]; cbn [digits2_pos].
  - rewrite Pos2Z.inj_succ, (Pos2Z.inj_xI p).
    replace (Z.succ (Zpos (digits2_pos p)) - 1) with (Z.succ (Zpos (digits2_pos p) - 1)) by lia.
    rewrite !Z.pow_succ_r by lia. lia.
  - rewrite Pos2Z.inj_succ, (Pos2Z.inj_xO p).
    replace (Z.succ (Zpos (digits2_pos p)) - 1) with (Z.succ (Zpos (digits2_pos p) - 1)) by lia.
    rewrite !Z.pow_succ_r by lia. lia.
  - cbn. lia.
Qed.

Lemma Zdigits2_bounds (M : Z) :
  0 < M -> 2 ^ (Zdigits2 M - 1) <= M < 2 ^ Zdigits2 M.
Proof.
  destruct M as [| p | p]; try lia. intros _. apply digits2_pos_bounds.
Qed.

Lemma Zdigits2_pos (M : Z) : 0 < M -> 0 < Zdigits2 M.
Proof. destruct M; cbn; lia. Qed.

(** [M < 2 ^ k] bounds the number of digits by [k]. *)
Lemma Zdigits2_le (M k : Z) : 0 < M -> M < 2 ^ k -> Zdigits2 M <= k.
Proof.
  intros HM Hk. pose proof (Zdigits2_bounds M HM) as [Hlo _].
  pose proof (Zdigits2_pos M HM).
  destruct (Z_le_gt_dec (Zdigits2 M) k) as [|Hgt]; [assumption | exfalso].
  assert (2 ^ k <= 2 ^ (Zdigits2 M - 1)) by (apply Z.pow_le_mono_r; lia).
  lia.
Qed.

(** [2 ^ k <= M] forces more than [k] digits. *)
Lemma Zdigits2_gt (M k : Z) : 0 <= k -> 2 ^ k <= M -> k < Zdigits2 M.
Proof.
  intros Hk0 Hk.
  assert (HM : 0 < M) by (pose proof (Z.pow_pos_nonneg 2 k); lia).
  pose proof (Zdigits2_bounds M HM) as [_ Hhi].
  destruct (Z_lt_ge_dec k (Zdigits2 M)) as [|Hge]; [assumption | exfalso].
  assert (2 ^ Zdigits2 M <= 2 ^ k) by (apply Z.pow_le_mono_r; lia).
  lia.
Qed.

End Digits.

Section Rounding.

(** Rounding the shifted mantissa moves it to one of its two integer
    neighbours, and leaves it alone when no bit was shifted out. *)
Lemma round_shifted (M : Z) (k : nat) :
  0 <= M ->
  let q := M / 2 ^ Z.of_nat (S k) in
  let R := round_nearest_even (shr_m (shifted M k)) (loc_of_shr_record (shifted M k)) in
  q <= R <= q + 1 /\ (M mod 2 ^ Z.of_nat (S k) = 0 -> R = q).
Proof.
  intros HM q R. subst R. unfold shifted. cbn [shr_m loc_of_shr_record]. fold q.
  pose proof (sticky_step M (Z.of_nat k) ltac:(lia)) as Hst.
  replace (Z.of_nat k + 1) with (Z.of_nat (S k)) in Hst by lia.
  destruct (Z.odd (M / 2 ^ Z.of_nat k)), (M mod 2 ^ Z.of_nat k =? 0);
    cbn [negb orb round_nearest_even] in *;
    try destruct (Z.even q);
    (split; [lia | intros H0; rewrite H0 in Hst; cbn in Hst; congruence]).
Qed.

(** The outcome of [binary_round_aux] on an exact positive mantissa [M]
    that has to lose [n >= 1] low bits: the mantissa becomes a neighbour
    [R] of [M / 2 ^ n]; when [R] reaches [2 ^ 24] it is renormalised. *)
Lemma binary_round_aux_shift (sx : bool) (M E : Z) :
  0 < M ->
  let n := fexp F32.prec F32.emax (Zdigits2 M + E) - E in
  0 < n -> n < Zdigits2 M -> E + n <= 103 ->
  exists (R : Z) (m' : positive) (e' : Z),
    binary_round_aux F32.prec F32.emax sx M E loc_Exact = S754_finite sx m' e'
    /\ M / 2 ^ n <= R <= M / 2 ^ n + 1
    /\ (M mod 2 ^ n = 0 -> R = M / 2 ^ n)
    /\ ((Zpos m' = R /\ e' = E + n)
        \/ (R = 2 ^ 24 /\ Zpos m' = 2 ^ 23 /\ e' = E + n + 1)).
Proof.
  intros HM n Hn Hnd He.
  pose proof (Zdigits2_bounds M HM) as [Hdlo Hdhi].
  assert (Hn24 : Zdigits2 M - 24 <= n /\ -149 <= E + n).
  { subst n. unfold fexp, emin, F32.prec, F32.emax. lia. }
  unfold binary_round_aux, shr_fexp. cbn [shr_record_of_loc]. fold n.
  destruct n as [| np |] eqn:En; try lia.
  rewrite shr_exact by lia.
  set (k := Nat.pred (Pos.to_nat np)).
  assert (Hk : Z.of_nat (S k) = Zpos np) by (subst k; lia).
  pose proof (round_shifted M k ltac:(lia)) as HR. cbv zeta in HR. rewrite Hk in HR.
  set (R := round_nearest_even _ _) in *.
  set (q := M / 2 ^ Zpos np) in *.
  assert (Hp : 0 < 2 ^ Zpos np) by pow2_pos.
  assert (Hq1 : 1 <= q).
  { apply Z.div_le_lower_bound; [assumption |].
    assert (2 ^ Zpos np <= 2 ^ (Zdigits2 M - 1)) by (apply Z.pow_le_mono_r; lia).
    lia. }
  assert (Hq24 : q < 2 ^ 24).
  { apply Z.div_lt_upper_bound; [assumption |].
    rewrite <- Z.pow_add_r by lia.
    assert (2 ^ Zdigits2 M <= 2 ^ (Zpos np + 24)) by (apply Z.pow_le_mono_r; lia).
    lia. }
  exists R.
  destruct (Z_lt_le_dec R (2 ^ 24)) as [Hlt | Hge].
  - (* no carry into a 25th bit *)
    pose proof (Zdigits2_le R 24 ltac:(lia) Hlt) as HdR.
    set (sh := fexp F32.prec F32.emax (Zdigits2 R + (E + Zpos np)) - (E + Zpos np)).
    assert (Hsh : sh <= 0).
    { subst sh. unfold fexp, emin, F32.prec, F32.emax. lia. }
    clearbody sh.
    destruct R as [| r |] eqn:ER; try lia.
    exists r, (E + Zpos np).
    replace (shr _ _ sh) with
      (Build_shr_record (Zpos r) false false, E + Zpos np)
      by (destruct sh; try lia; reflexivity).
    cbn [shr_m]. unfold F32.emax, F32.prec.
    destruct (Z.leb_spec (E + Zpos np) (128 - 24)); try lia.
    split; [reflexivity |]. split; [lia |]. split; [tauto |].
    left. split; reflexivity.
  - (* the rounding carried: [R = 2 ^ 24] *)
    assert (ER : R = 2 ^ 24) by lia.
    exists (8388608%positive), (E + Zpos np + 1).
    clearbody R. subst R.
    replace (fexp F32.prec F32.emax (Zdigits2 (2 ^ 24) + (E + Zpos np)) - (E + Zpos np))
      with 1 by (unfold fexp, emin, F32.prec, F32.emax; cbn [Zdigits2]; change (Zdigits2 (2 ^ 24)) with 25; lia).
    rewrite shr_exact by lia.
    change (shr_m (shifted (2 ^ 24) (Nat.pred (Pos.to_nat 1)))) with (Zpos 8388608).
    cbv iota beta. unfold F32.emax, F32.prec.
    destruct (Z.leb_spec (E + Zpos np + 1) (128 - 24)); try lia.
    split; [reflexivity |]. split; [lia |]. split; [tauto |].
    right. repeat split; reflexivity.
Qed.

(** A mantissa rounded to a neighbour never crosses a multiple of the
    unit [P2] of the integers: integer bounds on the exact value carry
    over to the integer part of the rounded one. *)
Lemma neighbour_keeps_integer_bounds (M P1 P2 R K : Z) :
  0 < P1 -> 0 < P2 ->
  M / P1 <= R <= M / P1 + 1 ->
  (M mod P1 = 0 -> R = M / P1) ->
  (M <= K * (P1 * P2) -> R / P2 <= K) /\ (K * (P1 * P2) <= M -> K <= R / P2).
Proof.
  intros HP1 HP2 HR Hex.
  pose proof (Z.div_mod M P1 ltac:(lia)) as Hdm.
  pose proof (Z.mod_pos_bound M P1 HP1) as Hr.
  set (q := M / P1) in *. set (r := M mod P1) in *.
  split; intros HK.
  - apply Z.div_le_upper_bound; [assumption |].
    destruct (Z.eq_dec r 0) as [Hr0 | Hr0].
    + rewrite (Hex Hr0).
      apply (Z.mul_le_mono_pos_l _ _ P1); [assumption | nia].
    + assert (q < P2 * K); [| lia].
      apply (Z.mul_lt_mono_pos_l P1); [assumption | nia].
  - apply Z.div_le_lower_bound; [assumption |].
    assert (P2 * K < q + 1); [| lia].
    apply (Z.mul_lt_mono_pos_l P1); [assumption | nia].
Qed.

Lemma bounded_inv (m : positive) (e : Z) :
  bounded F32.prec F32.emax m e = true ->
  Z.max (Zpos (digits2_pos m) + e - 24) (-149) = e /\ e <= 104.
Proof.
  unfold bounded, canonical_mantissa, fexp, emin, F32.prec, F32.emax.
  intros [H1 H2]%andb_true_iff. apply Z.eqb_eq in H1. apply Z.leb_le in H2.
  split; assumption.
Qed.

(** The product of a float [m * 2 ^ e] of magnitude at most one with
    [32767.0f]: its integer part [t] stays on the same side of every
    integer [K] as the exact product [m * 32767 * 2 ^ e]. *)
Lemma mul_c32767_trunc (sx : bool) (m : positive) (e : Z) :
  bounded F32.prec F32.emax m e = true -> e <= -23 ->
  exists t : Z,
    F32.trunc (F32.mul (S754_finite sx m e) F32.c32767) = Some (cond_Zopp sx t)
    /\ forall K : Z,
         (Zpos m * 32767 <= K * 2 ^ (- e) -> t <= K)
         /\ (K * 2 ^ (- e) <= Zpos m * 32767 -> K <= t).
Proof.
  intros [Hfe Hemax]%bounded_inv He.
  pose proof (digits2_pos_bounds m) as [Hmlo Hmhi].
  set (dm := Zpos (digits2_pos m)) in *.
  assert (Hdm : 1 <= dm <= 24) by lia.
  unfold F32.mul, F32.c32767. cbn [SFmul]. rewrite xorb_false_r.
  set (M := Zpos (m * 16776704)).
  assert (EM : M = Zpos m * 16776704) by (subst M; apply Pos2Z.inj_mul).
  assert (HM : 0 < M) by (subst M; lia).
  assert (Hd1 : dm + 22 < Zdigits2 M).
  { apply Zdigits2_gt; [lia |].
    replace (dm + 22) with ((dm - 1) + 23) by lia.
    rewrite Z.pow_add_r by lia. change (2 ^ 23) with 8388608. nia. }
  assert (Hd2 : Zdigits2 M <= dm + 24).
  { apply Zdigits2_le; [assumption |].
    rewrite Z.pow_add_r by lia. change (2 ^ 24) with 16777216. nia. }
  pose proof (binary_round_aux_shift sx M (e + -9) HM) as Hround.
  cbv zeta in Hround.
  set (n := fexp F32.prec F32.emax (Zdigits2 M + (e + -9)) - (e + -9)) in *.
  assert (Hn : n = Z.max (Zdigits2 M - 24) (-140 - e)).
  { subst n. unfold fexp, emin, F32.prec, F32.emax. lia. }
  destruct Hround as (R & m' & e' & Heq & HR & Hex & Hnorm); try lia.
  rewrite Heq. cbn [F32.trunc].
  set (e1 := e + -9 + n) in *.
  assert (He1 : e1 <= -8) by lia.
  exists (R / 2 ^ (- e1)). split.
  - f_equal. f_equal.
    destruct Hnorm as [[-> ->] | (-> & -> & ->)].
    + apply Z.shiftl_div_pow2. lia.
    + rewrite Z.shiftl_div_pow2 by lia.
      replace (- e1) with (1 + (- (e1 + 1))) by lia.
      rewrite (Z.pow_add_r 2 1) by lia.
      change (2 ^ 24) with (2 ^ 1 * 2 ^ 23).
      rewrite Z.div_mul_cancel_l; [reflexivity | | lia].
      apply Z.pow_nonzero; lia.
  - intros K.
    assert (Hpow : 2 ^ n * 2 ^ (- e1) = 2 ^ (- e) * 512).
    { rewrite <- Z.pow_add_r by lia. change 512 with (2 ^ 9).
      rewrite <- Z.pow_add_r by lia. f_equal. lia. }
    pose proof (neighbour_keeps_integer_bounds M (2 ^ n) (2 ^ (- e1)) R K
                  ltac:(pow2_pos)
                  ltac:(pow2_pos) HR Hex) as [Hup Hlow].
    rewrite Hpow in Hup, Hlow. split; intros HK; [apply Hup | apply Hlow]; nia.
Qed.

End Rounding.

(** * Clamping *)

Section Clamp.

Lemma clamp_nan : clamp S754_nan = F32.one.
Proof. reflexivity. Qed.

Lemma clamp_infinity (sx : bool) :
  clamp (S754_infinity sx) = if sx then F32.minus_one else F32.one.
Proof. destruct sx; reflexivity. Qed.

Lemma clamp_zero (sx : bool) : clamp (S754_zero sx) = S754_zero sx.
Proof. reflexivity. Qed.

Lemma clamp_finite (sx : bool) (m : positive) (e : Z) :
  clamp (S754_finite sx m e) =
    if below_one m e then S754_finite sx m e
    else if sx then F32.minus_one else F32.one.
Proof.
  unfold clamp, std_max, std_min, F32.lt, SFltb, below_one, F32.one, F32.minus_one.
  destruct sx; cbn [SFcompare].
  - rewrite (Z.compare_antisym e (-23)), !Pos.compare_cont_spec.
    cbn [Pos.switch_Eq]. rewrite (Pos.compare_antisym m 8388608).
    destruct (e ?= -23); cbn [CompOpp]; try reflexivity;
      destruct (m ?= 8388608)%positive; reflexivity.
  - rewrite !Pos.compare_cont_spec. cbn [Pos.switch_Eq].
    destruct (e ?= -23); try reflexivity;
      destruct (m ?= 8388608)%positive; reflexivity.
Qed.

Lemma below_one_magnitude (m : positive) (e : Z) :
  bounded F32.prec F32.emax m e = true -> below_one m e = true ->
  e <= -23 /\ Zpos m <= 2 ^ (- e).
Proof.
  intros [Hfe _]%bounded_inv. unfold below_one.
  pose proof (digits2_pos_bounds m) as [_ Hhi].
  destruct (Z.compare_spec e (-23)) as [-> | Hlt | Hgt]; try discriminate.
  - rewrite (Pos2Z.inj_compare m 8388608).
    destruct (Z.compare_spec (Zpos m) 8388608); try discriminate.
    intros _. change (2 ^ (- -23)) with 8388608. lia.
  - intros _. split; [lia |].
    assert (2 ^ Zpos (digits2_pos m) <= 2 ^ (- e)) by (apply Z.pow_le_mono_r; lia).
    lia.
Qed.

(** Whatever the input, the clamped value is a zero or a finite float of
    magnitude at most one. *)
Lemma clamp_cases (s : spec_float) :
  F32.valid s = true ->
  (exists sx, clamp s = S754_zero sx)
  \/ (exists sx m e, clamp s = S754_finite sx m e
        /\ bounded F32.prec F32.emax m e = true
        /\ e <= -23 /\ Zpos m <= 2 ^ (- e)).
Proof.
  intros Hv.
  assert (Hone : forall sx, exists sx' m e,
             (if sx : bool then F32.minus_one else F32.one) = S754_finite sx' m e
             /\ bounded F32.prec F32.emax m e = true
             /\ e <= -23 /\ Zpos m <= 2 ^ (- e)).
  { intros sx. exists sx, 8388608%positive, (-23).
    destruct sx; (split; [reflexivity |]); (split; [reflexivity |]);
      change (2 ^ (- -23)) with 8388608; lia. }
  destruct s as [sx | sx | | sx m e].
  - left. exists sx. reflexivity.
  - right. rewrite clamp_infinity. apply Hone.
  - right. rewrite clamp_nan. apply (Hone false).
  - right. rewrite clamp_finite.
    destruct (below_one m e) eqn:Hb; [| apply Hone].
    exists sx, m, e. split; [reflexivity |]. split; [exact Hv |].
    apply below_one_magnitude; assumption.
Qed.

Lemma clamp_is_clamped (s : spec_float) : is_clamped s (clamp s).
Proof.
  unfold is_clamped, F32.lt, F32.le, SFltb, SFleb.
  destruct s as [sx | sx | | sx m e].
  - rewrite clamp_zero. cbn. repeat split; congruence.
  - rewrite clamp_infinity. destruct sx; cbn; repeat split; congruence.
  - cbn. repeat split; congruence.
  - rewrite clamp_finite. unfold below_one, F32.one, F32.minus_one.
    destruct sx; cbn [SFcompare];
      rewrite ?(Z.compare_antisym e (-23)), !Pos.compare_cont_spec;
      cbn [Pos.switch_Eq]; rewrite ?(Pos.compare_antisym m 8388608);
      destruct (Z.compare_spec e (-23)) as [-> | |];
      destruct (Pos.compare_spec m 8388608) as [-> | |];
      cbn [CompOpp Pos.switch_Eq]; repeat split; congruence.
Qed.

End Clamp.

(** * One sample *)

Section Sample.

(** [trunc] is the integer part toward zero of the float's value:
    the quotient, rounded toward zero, of the numerator by the denominator. *)
Lemma trunc_quot (x : spec_float) (p : Q) :
  F32.to_Q x = Some p -> F32.trunc x = Some (Z.quot (Qnum p) (Zpos (Qden p))).
Proof.
  destruct x as [sx | sx | | sx m e]; cbn [F32.to_Q F32.trunc]; try discriminate.
  - intros [= <-]. reflexivity.
  - intros [= <-]. f_equal. destruct (Z.leb_spec 0 e) as [He | He].
    + cbn [inject_Z Qnum Qden]. rewrite Z.quot_1_r, Z.shiftl_mul_pow2 by assumption.
      destruct sx; reflexivity.
    + cbn [Qnum Qden].
      assert (HW : 0 < 2 ^ (- e)) by pow2_pos.
      rewrite Z2Pos.id, Z.shiftl_div_pow2 by lia.
      destruct sx; cbn [cond_Zopp].
      * rewrite Z.quot_opp_l, Z.quot_div_nonneg by lia. reflexivity.
      * rewrite Z.quot_div_nonneg by lia. reflexivity.
Qed.

Lemma of_float_in_range (x : spec_float) (z : Z) :
  F32.trunc x = Some z -> -32768 <= z <= 32767 -> Int16.of_float x = Some z.
Proof.
  intros Ht Hz. unfold Int16.of_float. rewrite Ht. cbn [mbind option_bind].
  unfold Int16.in_range, Int16.min_signed, Int16.max_signed.
  destruct (Z.leb_spec (-32768) z), (Z.leb_spec z 32767); try lia. reflexivity.
Qed.

Lemma sample_to_int16_valid (s : spec_float) :
  F32.valid s = true ->
  exists v, sample_to_int16 s = Some v /\ -32767 <= v <= 32767.
Proof.
  intros Hv. unfold sample_to_int16.
  destruct (clamp_cases s Hv) as [[sx ->] | (sx & m & e & -> & Hb & He & Hm)].
  - exists 0. split; [| lia]. destruct sx; reflexivity.
  - destruct (mul_c32767_trunc sx m e Hb He) as (t & Ht & HK).
    assert (Hp : 0 < 2 ^ (- e)) by pow2_pos.
    destruct (HK 32767) as [Hup _]. destruct (HK 0) as [_ Hlow].
    assert (0 <= t <= 32767) by (split; [apply Hlow | apply Hup]; lia).
    exists (cond_Zopp sx t). split.
    + apply of_float_in_range; [assumption | destruct sx; cbn [cond_Zopp]; lia].
    + destruct sx; cbn [cond_Zopp]; lia.
Qed.

End Sample.

(** * The two loops *)

Section Loops.

Lemma load_int16_Some (data : list byte) (i : nat) :
  (2 * i + 1 < length data)%nat ->
  exists lo hi, data !! (2 * i)%nat = Some lo /\ data !! (2 * i + 1)%nat = Some hi
                /\ load_int16 data i = Some (Int16.of_bytes lo hi).
Proof.
  intros Hlen.
  destruct (lookup_lt_is_Some_2 data (2 * i)%nat ltac:(lia)) as [lo Hlo].
  destruct (lookup_lt_is_Some_2 data (2 * i + 1)%nat ltac:(lia)) as [hi Hhi].
  exists lo, hi. unfold load_int16. rewrite Hlo, Hhi. auto.
Qed.

(** Iterations [i .. i+n-1] of the decoding loop succeed when the buffer
    holds the [2 * (i + n)] bytes they read; they overwrite exactly the
    slots [i .. i+n-1]. *)
Lemma pcm16ToFloat_loop_spec (data : list byte) (n : nat) :
  forall (i : nat) (samples : list spec_float),
    (2 * (i + n) <= length data)%nat ->
    (i + n <= length samples)%nat ->
    exists out,
      pcm16ToFloat_loop data n i samples = Some out
      /\ length out = length samples
      /\ (forall j, (i <= j < i + n)%nat ->
            exists lo hi, data !! (2 * j)%nat = Some lo
                          /\ data !! (2 * j + 1)%nat = Some hi
                          /\ out !! j = Some (int16_to_sample lo hi))
      /\ (forall j, ~ (i <= j < i + n)%nat -> out !! j = samples !! j).
Proof.
  induction n as [| n IH]; intros i samples Hdata Hlen.
  - exists samples. cbn [pcm16ToFloat_loop].
    split; [reflexivity |]. split; [reflexivity |].
    split; [intros j Hj; lia | reflexivity].
  - cbn [pcm16ToFloat_loop].
    destruct (load_int16_Some data i ltac:(lia)) as (lo & hi & Hlo & Hhi & ->).
    cbn [mbind option_bind].
    set (samples' := <[i := _]> samples).
    destruct (IH (S i) samples') as (out & -> & Hout & Hin & Hrest);
      [lia | subst samples'; rewrite length_insert; lia |].
    exists out. split; [reflexivity |].
    split; [rewrite Hout; subst samples'; apply length_insert |].
    split.
    + intros j Hj. destruct (decide (j = i)) as [-> | Hne].
      * exists lo, hi. repeat split; try assumption.
        rewrite Hrest by lia. subst samples'.
        apply list_lookup_insert_eq. lia.
      * apply Hin. lia.
    + intros j Hj. rewrite Hrest by lia. subst samples'.
      apply list_lookup_insert_ne. lia.
Qed.

Lemma store_int16_length (pcmData : list byte) (i : nat) (v : Z) :
  length (store_int16 pcmData i v) = length pcmData.
Proof. unfold store_int16. rewrite !length_insert. reflexivity. Qed.

Lemma store_int16_lo (pcmData : list byte) (i : nat) (v : Z) :
  (2 * i + 1 < length pcmData)%nat ->
  store_int16 pcmData i v !! (2 * i)%nat = Some (Int16.lo_byte v).
Proof.
  intros Hlen. unfold store_int16.
  rewrite list_lookup_insert_ne by lia. apply list_lookup_insert_eq. lia.
Qed.

Lemma store_int16_hi (pcmData : list byte) (i : nat) (v : Z) :
  (2 * i + 1 < length pcmData)%nat ->
  store_int16 pcmData i v !! (2 * i + 1)%nat = Some (Int16.hi_byte v).
Proof.
  intros Hlen. unfold store_int16.
  apply list_lookup_insert_eq. rewrite length_insert. lia.
Qed.

Lemma store_int16_other (pcmData : list byte) (i k : nat) (v : Z) :
  k <> (2 * i)%nat -> k <> (2 * i + 1)%nat ->
  store_int16 pcmData i v !! k = pcmData !! k.
Proof.
  intros H0 H1. unfold store_int16.
  rewrite !list_lookup_insert_ne by lia. reflexivity.
Qed.

End Loops.

Section EncodingLoop.

Variable samples : list spec_float.
Hypothesis samples_valid : Forall (fun s => F32.valid s = true) samples.

(** Iterations [i .. i+n-1] of the encoding loop succeed on valid floats:
    no conversion leaves the range of [int16_t].  They overwrite exactly
    the bytes [2i .. 2(i+n)-1]. *)
Lemma floatToPcm16_loop_spec (n : nat) :
  forall (i : nat) (pcmData : list byte),
    (i + n <= length samples)%nat ->
    (2 * (i + n) <= length pcmData)%nat ->
    exists out,
      floatToPcm16_loop samples n i pcmData = Some out
      /\ length out = length pcmData
      /\ (forall j, (i <= j < i + n)%nat ->
            exists s v, samples !! j = Some s
                        /\ sample_to_int16 s = Some v
                        /\ out !! (2 * j)%nat = Some (Int16.lo_byte v)
                        /\ out !! (2 * j + 1)%nat = Some (Int16.hi_byte v))
      /\ (forall k, ~ (2 * i <= k < 2 * (i + n))%nat -> out !! k = pcmData !! k).
Proof.
  induction n as [| n IH]; intros i pcmData Hlen Hpcm.
  - exists pcmData. cbn [floatToPcm16_loop].
    split; [reflexivity |]. split; [reflexivity |].
    split; [intros j Hj; lia | reflexivity].
  - cbn [floatToPcm16_loop].
    destruct (lookup_lt_is_Some_2 samples i ltac:(lia)) as [s Hs].
    rewrite Hs. cbn [mbind option_bind]. cbv zeta.
    change (Int16.of_float (F32.mul (clamp s) F32.c32767)) with (sample_to_int16 s).
    destruct (sample_to_int16_valid s) as (v & Hv & _).
    { exact (Forall_lookup_1 _ _ _ _ samples_valid Hs). }
    rewrite Hv. cbn [mbind option_bind].
    destruct (IH (S i) (store_int16 pcmData i v)) as (out & -> & Hout & Hin & Hrest);
      [lia | rewrite store_int16_length; lia |].
    exists out. split; [reflexivity |].
    split; [rewrite Hout; apply store_int16_length |].
    split.
    + intros j Hj. destruct (decide (j = i)) as [-> | Hne].
      * exists s, v. split; [assumption |]. split; [assumption |].
        rewrite !Hrest by lia.
        split; [apply store_int16_lo | apply store_int16_hi]; lia.
      * apply Hin. lia.
    + intros k Hk. rewrite Hrest by lia. apply store_int16_other; lia.
Qed.

End EncodingLoop.

(** * The 65536 sixteen-bit patterns, by enumeration *)

Section Enumeration.

Lemma all_bytes_complete (b : byte) : b ∈ all_bytes.
Proof.
  unfold all_bytes. apply list_elem_of_omap.
  exists (N.to_nat (Byte.to_N b)). split.
  - apply elem_of_seq. pose proof (Byte.to_N_bounded b). lia.
  - rewrite N2Nat.id. apply Byte.of_to_N.
Qed.

Lemma bytes_forall (P : byte -> byte -> bool) :
  forallb (fun lo => forallb (P lo) all_bytes) all_bytes = true ->
  forall lo hi, P lo hi = true.
Proof.
  intros H lo hi.
  rewrite forallb_forall in H.
  specialize (H lo ltac:(apply list_elem_of_In, all_bytes_complete)).
  rewrite forallb_forall in H.
  apply H, list_elem_of_In, all_bytes_complete.
Qed.

Lemma in_Zseq (len : nat) :
  forall start v, start <= v < start + Z.of_nat len -> In v (Zseq start len).
Proof.
  induction len as [| len IH]; intros start v Hv; [lia |].
  cbn [Zseq]. destruct (Z.eq_dec start v) as [-> | Hne]; [left; reflexivity |].
  right. apply IH. lia.
Qed.

Lemma int16_forall (P : Z -> bool) :
  forallb P int16_values = true ->
  forall v, -32768 <= v <= 32767 -> P v = true.
Proof.
  intros H v Hv. rewrite forallb_forall in H. apply H.
  unfold int16_values. apply in_Zseq. lia.
Qed.

Lemma of_bytes_ok_all (lo hi : byte) : of_bytes_ok lo hi = true.
Proof. revert lo hi. apply bytes_forall. vm_compute. reflexivity. Qed.

Lemma normalise_ok_all (v : Z) : -32768 <= v <= 32767 -> normalise_ok v = true.
Proof. revert v. apply int16_forall. vm_compute. reflexivity. Qed.

Lemma store_load_ok_all (v : Z) : -32768 <= v <= 32767 -> store_load_ok v = true.
Proof. revert v. apply int16_forall. vm_compute. reflexivity. Qed.

End Enumeration.

(** * Decoding *)

Section Decode.

(** [pcm16ToFloat] on a buffer that holds the [byteLength] bytes it is
    told about: it returns [byteLength / 2] samples, sample [j] computed
    from the bytes [2j] and [2j + 1]. *)
Lemma pcm16ToFloat_spec (data : list byte) (byteLength : nat) :
  (byteLength <= length data)%nat ->
  exists out,
    pcm16ToFloat data byteLength = Some out
    /\ length out = (byteLength / 2)%nat
    /\ (forall j, (j < byteLength / 2)%nat ->
          exists lo hi, data !! (2 * j)%nat = Some lo
                        /\ data !! (2 * j + 1)%nat = Some hi
                        /\ out !! j = Some (int16_to_sample lo hi)).
Proof.
  intros Hlen. unfold pcm16ToFloat.
  pose proof (Nat.Div0.mul_div_le byteLength 2) as Hdiv.
  destruct (pcm16ToFloat_loop_spec data (byteLength / 2) 0
              (replicate (byteLength / 2) F32.zero))
    as (out & Heq & Hout & Hin & _);
    [lia | rewrite length_replicate; lia |].
  exists out. split; [exact Heq |].
  split; [rewrite Hout; apply length_replicate |].
  intros j Hj. apply Hin. lia.
Qed.

(** The result depends on the buffer only through the bytes of the
    complete pairs. *)
Lemma pcm16ToFloat_agree (data1 data2 : list byte) (len1 len2 : nat) :
  (len1 <= length data1)%nat -> (len2 <= length data2)%nat ->
  (len1 / 2 = len2 / 2)%nat ->
  take (2 * (len1 / 2)) data1 = take (2 * (len1 / 2)) data2 ->
  pcm16ToFloat data1 len1 = pcm16ToFloat data2 len2.
Proof.
  intros H1 H2 Hn Htake.
  destruct (pcm16ToFloat_spec data1 len1 H1) as (out1 & -> & Hl1 & Hs1).
  destruct (pcm16ToFloat_spec data2 len2 H2) as (out2 & -> & Hl2 & Hs2).
  f_equal. apply list_eq. intros j.
  destruct (decide (j < len1 / 2)%nat) as [Hj | Hj].
  - destruct (Hs1 j Hj) as (lo1 & hi1 & Hlo1 & Hhi1 & ->).
    destruct (Hs2 j ltac:(lia)) as (lo2 & hi2 & Hlo2 & Hhi2 & ->).
    assert (Hk : forall k, (k < 2 * (len1 / 2))%nat -> data1 !! k = data2 !! k).
    { intros k Hk. rewrite <- (lookup_take_lt data1 (2 * (len1 / 2)) k Hk).
      rewrite Htake. apply lookup_take_lt, Hk. }
    rewrite Hk in Hlo1, Hhi1 by lia. congruence.
  - rewrite !lookup_ge_None_2 by lia. reflexivity.
Qed.

Lemma decode_spec (bytes : list byte) :
  exists out,
    decode bytes = Some out
    /\ length out = (length bytes / 2)%nat
    /\ (forall j, (j < length bytes / 2)%nat ->
          exists lo hi, bytes !! (2 * j)%nat = Some lo
                        /\ bytes !! (2 * j + 1)%nat = Some hi
                        /\ out !! j = Some (int16_to_sample lo hi)).
Proof. apply pcm16ToFloat_spec. reflexivity. Qed.

Lemma of_bytes_range (lo hi : byte) :
  -32768 <= Int16.of_bytes lo hi <= 32767
  /\ Int16.of_bytes lo hi mod 65536
     = Int16.unsigned_of_byte lo + 256 * Int16.unsigned_of_byte hi.
Proof.
  pose proof (of_bytes_ok_all lo hi) as H. unfold of_bytes_ok in H. cbv zeta in H.
  apply andb_true_iff in H as [Hr Hc]. apply Z.eqb_eq in Hc.
  unfold Int16.in_range, Int16.min_signed, Int16.max_signed in Hr.
  apply andb_true_iff in Hr as [Hlo Hhi]. apply Z.leb_le in Hlo, Hhi.
  split; [split |]; assumption.
Qed.

(** Normalising an [int16_t] is exact. *)
Lemma normalise_exact (v : Z) :
  -32768 <= v <= 32767 ->
  F32.valid (F32.div (F32.of_int v) F32.c32768) = true
  /\ exists q, F32.to_Q (F32.div (F32.of_int v) F32.c32768) = Some q
               /\ (q == v # 32768)%Q.
Proof.
  intros Hv. pose proof (normalise_ok_all v Hv) as H.
  unfold normalise_ok in H. cbv zeta in H.
  apply andb_true_iff in H as [Hvalid Hq]. split; [exact Hvalid |].
  destruct (F32.to_Q _) as [q |]; [| discriminate].
  exists q. split; [reflexivity |]. apply Qeq_bool_iff. exact Hq.
Qed.

End Decode.

(** * Encoding *)

Section Encode.

Lemma of_float_trunc (x : spec_float) (v : Z) :
  Int16.of_float x = Some v -> F32.trunc x = Some v /\ -32768 <= v <= 32767.
Proof.
  unfold Int16.of_float. destruct (F32.trunc x) as [z |]; [| discriminate].
  cbn [mbind option_bind].
  unfold Int16.in_range, Int16.min_signed, Int16.max_signed.
  destruct (Z.leb_spec (-32768) z), (Z.leb_spec z 32767); cbn [andb];
    intros [= <-]; split; (reflexivity || lia).
Qed.

Lemma store_load (v : Z) :
  -32768 <= v <= 32767 ->
  Int16.of_bytes (Int16.lo_byte v) (Int16.hi_byte v) = v.
Proof.
  intros Hv. apply Z.eqb_eq. exact (store_load_ok_all v Hv).
Qed.

(** [floatToPcm16] on valid floats: it returns two bytes per sample, the
    low and the high byte of the integer [sample_to_int16] gives. *)
Lemma encode_spec (samples : list spec_float) :
  Forall (fun s => F32.valid s = true) samples ->
  exists out,
    encode samples = Some out
    /\ length out = (2 * length samples)%nat
    /\ (forall j s, samples !! j = Some s ->
          exists v, sample_to_int16 s = Some v
                    /\ -32767 <= v <= 32767
                    /\ out !! (2 * j)%nat = Some (Int16.lo_byte v)
                    /\ out !! (2 * j + 1)%nat = Some (Int16.hi_byte v)).
Proof.
  intros Hvalid. unfold encode, floatToPcm16.
  destruct (floatToPcm16_loop_spec samples Hvalid (length samples) 0
              (replicate (length samples * 2) x00))
    as (out & Heq & Hout & Hin & _);
    [lia | rewrite length_replicate; lia |].
  exists out. split; [exact Heq |].
  split; [rewrite Hout, length_replicate; lia |].
  intros j s Hs.
  destruct (Hin j) as (s' & v & Hs' & Hv & Hlo & Hhi).
  { apply lookup_lt_Some in Hs. lia. }
  assert (s' = s) as -> by congruence.
  exists v. split; [assumption |]. split; [| split; assumption].
  destruct (sample_to_int16_valid s (Forall_lookup_1 _ _ _ _ Hvalid Hs))
    as (v' & Hv' & Hrange).
  congruence.
Qed.

(** One sample: the whole output. *)
Lemma encode_singleton (s : spec_float) (v : Z) :
  sample_to_int16 s = Some v ->
  encode [s] = Some [Int16.lo_byte v; Int16.hi_byte v].
Proof.
  intros Hv. unfold encode, floatToPcm16. cbn [length Nat.mul Nat.add replicate].
  cbn [floatToPcm16_loop]. change ([s] !! 0%nat) with (Some s).
  cbn [mbind option_bind]. cbv zeta.
  change (Int16.of_float (F32.mul (clamp s) F32.c32767)) with (sample_to_int16 s).
  rewrite Hv. reflexivity.
Qed.

Lemma decode_pair (lo hi : byte) :
  decode [lo; hi] = Some [int16_to_sample lo hi].
Proof. reflexivity. Qed.

End Encode.

(** * Round trip *)

Section RoundTrip.

(** The integer side of the round trip: [t] is the integer stored for the
    magnitude [mm / W], and [t / 32768] is what decoding gives back. *)
Lemma round_trip_int (mm W t : Z) :
  0 < mm <= W ->
  (forall K : Z, (mm * 32767 <= K * W -> t <= K) /\ (K * W <= mm * 32767 -> K <= t)) ->
  - (2 * W) < t * W - 32768 * mm < 2 * W.
Proof.
  intros Hm HK.
  pose proof (Z.div_mod (mm * 32767) W ltac:(lia)) as Hdm.
  pose proof (Z.mod_pos_bound (mm * 32767) W ltac:(lia)) as Hr.
  set (K1 := mm * 32767 / W) in *. set (r := (mm * 32767) mod W) in *.
  assert (Hlo : K1 <= t) by (apply (HK K1); lia).
  assert (Hhi : t <= K1 + 1) by (apply (HK (K1 + 1)); lia).
  assert (K1 * W <= t * W) by (apply Z.mul_le_mono_nonneg_r; lia).
  assert (t * W <= (K1 + 1) * W) by (apply Z.mul_le_mono_nonneg_r; lia).
  lia.
Qed.

Lemma round_trip_finite (sx : bool) (m : positive) (e : Z) :
  bounded F32.prec F32.emax m e = true -> e <= -23 -> Zpos m <= 2 ^ (- e) ->
  clamp (S754_finite sx m e) = S754_finite sx m e ->
  exists r q,
    round_trip (S754_finite sx m e) = Some r
    /\ F32.to_Q r = Some q
    /\ (Qabs (q - Qmake (cond_Zopp sx (Zpos m)) (Z.to_pos (2 ^ (- e)))) < 1 # 16384)%Q.
Proof.
  intros Hb He Hm Hclamp.
  destruct (mul_c32767_trunc sx m e Hb He) as (t & Ht & HK).
  assert (HW : 0 < 2 ^ (- e)) by pow2_pos.
  pose proof (round_trip_int (Zpos m) (2 ^ (- e)) t ltac:(lia) HK) as Hint.
  destruct (HK 32767) as [Hup _]. destruct (HK 0) as [_ Hlow].
  assert (Ht0 : 0 <= t <= 32767) by (split; [apply Hlow | apply Hup]; lia).
  set (v := cond_Zopp sx t).
  assert (Hv : -32768 <= v <= 32767) by (subst v; destruct sx; cbn [cond_Zopp]; lia).
  assert (Hs : sample_to_int16 (S754_finite sx m e) = Some v).
  { unfold sample_to_int16. rewrite Hclamp. apply of_float_in_range; assumption. }
  destruct (normalise_exact v Hv) as (_ & q & Hq & Hqv).
  exists (F32.div (F32.of_int v) F32.c32768), q.
  split; [| split; [exact Hq |]].
  - unfold round_trip. rewrite (encode_singleton _ v Hs).
    cbn [mbind option_bind]. rewrite decode_pair. cbn [mbind option_bind].
    change ([?x] !! 0%nat) with (Some x).
    unfold int16_to_sample. rewrite store_load by assumption. reflexivity.
  - rewrite Hqv. apply Qabs_Qlt_condition.
    unfold Qlt, Qminus, Qplus, Qopp. cbn [Qnum Qden].
    rewrite !Pos2Z.inj_mul, !Z2Pos.id by assumption.
    subst v. destruct sx; cbn [cond_Zopp]; lia.
Qed.

End RoundTrip.

(** * Out-of-range inputs *)

Section OutOfRange.

Lemma encode_singleton_clamp (s1 s2 : spec_float) :
  clamp s1 = clamp s2 -> encode [s1] = encode [s2].
Proof.
  intros Hc. unfold encode, floatToPcm16.
  cbn [length Nat.mul Nat.add replicate floatToPcm16_loop].
  change ([s1] !! 0%nat) with (Some s1). change ([s2] !! 0%nat) with (Some s2).
  cbn [mbind option_bind]. cbv zeta. rewrite Hc. reflexivity.
Qed.

Lemma encode_above_one (s : spec_float) :
  F32.lt F32.one s = true -> encode [s] = encode [F32.one].
Proof.
  intros Hlt. apply encode_singleton_clamp.
  destruct (clamp_is_clamped s) as (_ & Hup & _). rewrite (Hup Hlt). reflexivity.
Qed.

Lemma encode_below_minus_one (s : spec_float) :
  F32.lt s F32.minus_one = true -> encode [s] = encode [F32.minus_one].
Proof.
  intros Hlt. apply encode_singleton_clamp.
  destruct (clamp_is_clamped s) as (Hdown & _ & _). rewrite (Hdown Hlt). reflexivity.
Qed.

End OutOfRange.

(** * The properties of the specification *)

(** C1: for every byte buffer and every sample index [i] below
    [floor(L/2)], decoding succeeds and sample [i] is the float division by
    [32768.0f] of the little-endian signed 16-bit integer held in the bytes
    [2i] and [2i+1]; the division is exact, so the sample's value is that
    integer over 32768.  In particular [decode [0x00,0x80] = [-1.0]] and
    [decode [0x00,0x00] = [0.0]]. *)
Theorem decode_sample_value :
  (forall (bytes : list byte) (i : nat),
      (i < length bytes / 2)%nat ->
      exists out lo hi v,
        decode bytes = Some out
        /\ bytes !! (2 * i)%nat = Some lo
        /\ bytes !! (2 * i + 1)%nat = Some hi
        /\ v = Int16.of_bytes lo hi
        /\ -32768 <= v <= 32767
        /\ v mod 65536 = Int16.unsigned_of_byte lo + 256 * Int16.unsigned_of_byte hi
        /\ out !! i = Some (F32.div (F32.of_int v) F32.c32768)
        /\ exists q, F32.to_Q (F32.div (F32.of_int v) F32.c32768) = Some q
                     /\ (q == v # 32768)%Q)
  /\ decode [x00; x80] = Some [F32.minus_one]
  /\ decode [x00; x00] = Some [F32.zero].
Proof.
  split; [| split; reflexivity].
  intros bytes i Hi.
  destruct (decode_spec bytes) as (out & Hout & _ & Hsamples).
  destruct (Hsamples i Hi) as (lo & hi & Hlo & Hhi & Hi').
  destruct (of_bytes_range lo hi) as [Hrange Hcong].
  exists out, lo, hi, (Int16.of_bytes lo hi).
  repeat (split; [first [assumption | reflexivity | apply Hrange] |]).
  apply normalise_exact, Hrange.
Qed.

Lemma decode_sample_value_witness :
  (1 < length [x34; x12; xff; x7f; x01] / 2)%nat
  /\ exists out lo hi v,
       decode [x34; x12; xff; x7f; x01] = Some out
       /\ [x34; x12; xff; x7f; x01] !! (2 * 1)%nat = Some lo
       /\ [x34; x12; xff; x7f; x01] !! (2 * 1 + 1)%nat = Some hi
       /\ v = Int16.of_bytes lo hi
       /\ -32768 <= v <= 32767
       /\ v mod 65536 = Int16.unsigned_of_byte lo + 256 * Int16.unsigned_of_byte hi
       /\ out !! 1%nat = Some (F32.div (F32.of_int v) F32.c32768)
       /\ exists q, F32.to_Q (F32.div (F32.of_int v) F32.c32768) = Some q
                    /\ (q == v # 32768)%Q.
Proof.
  split; [vm_compute; lia |].
  apply (proj1 decode_sample_value [x34; x12; xff; x7f; x01] 1%nat).
  vm_compute. lia.
Defined.

(** C3: decoding a buffer of [L] bytes succeeds with exactly [floor(L/2)]
    samples, that is [L/2] for even [L] and [(L-1)/2] for odd [L]; the
    result is that of the buffer cut after its last complete pair, so a
    trailing byte is dropped; the empty buffer gives the empty output. *)
Theorem decode_length (bytes : list byte) :
  exists out,
    decode bytes = Some out
    /\ length out = (length bytes / 2)%nat
    /\ length out = (if Nat.even (length bytes) then length bytes / 2
                     else (length bytes - 1) / 2)%nat
    /\ decode (take (2 * (length bytes / 2)) bytes) = Some out
    /\ decode [] = Some [].
Proof.
  destruct (decode_spec bytes) as (out & Hout & Hlen & _).
  pose proof (Nat.Div0.mul_div_le (length bytes) 2) as Hle.
  exists out. split; [exact Hout |]. split; [exact Hlen |]. split; [| split].
  - rewrite Hlen. destruct (Nat.even (length bytes)) eqn:Heven; [reflexivity |].
    assert (Hodd : Nat.odd (length bytes) = true)
      by (rewrite <- Nat.negb_even, Heven; reflexivity).
    apply Nat.odd_spec in Hodd as [k Hk]. rewrite Hk.
    replace (2 * k + 1 - 1)%nat with (k * 2)%nat by lia.
    rewrite Nat.div_mul by lia.
    replace (2 * k + 1)%nat with (1 + k * 2)%nat by lia.
    rewrite Nat.div_add by lia. reflexivity.
  - rewrite <- Hout. unfold decode, arrayBufferToFloatSamples.
    apply pcm16ToFloat_agree.
    + reflexivity.
    + reflexivity.
    + rewrite length_take_le by lia.
      rewrite Nat.mul_comm, Nat.div_mul by lia. reflexivity.
    + rewrite length_take_le by lia.
      rewrite (Nat.mul_comm 2 (length bytes / 2)), Nat.div_mul by lia.
      rewrite take_take. f_equal. lia.
  - reflexivity.
Qed.

(** C4: encoding [N] valid floats returns exactly [2 * N] bytes; encoding
    the empty sequence returns the empty buffer. *)
Theorem encode_length (samples : list spec_float) :
  Forall (fun s => F32.valid s = true) samples ->
  (exists out, encode samples = Some out /\ length out = (2 * length samples)%nat)
  /\ encode [] = Some [].
Proof.
  intros Hvalid. split; [| reflexivity].
  destruct (encode_spec samples Hvalid) as (out & Hout & Hlen & _).
  exists out. split; assumption.
Qed.

Lemma encode_length_witness :
  Forall (fun s => F32.valid s = true) [F32.one; near_one; S754_infinity true]
  /\ (exists out, encode [F32.one; near_one; S754_infinity true] = Some out
                  /\ length out = (2 * length [F32.one; near_one; S754_infinity true])%nat)
  /\ encode [] = Some [].
Proof.
  split; [repeat constructor |].
  apply (encode_length [F32.one; near_one; S754_infinity true]).
  repeat constructor.
Defined.

(** C6: out-of-range inputs are clamped to the boundary: a float above
    [1.0] encodes as [1.0] does and a float below [-1.0] as [-1.0] does.
    [encode [1.5]] and [encode [1.0]] both give the integer 32767, bytes
    [0xFF, 0x7F]; [encode [-2.0]] and [encode [-1.0]] both give -32767. *)
Theorem encode_out_of_range :
  (forall s, F32.lt F32.one s = true -> encode [s] = encode [F32.one])
  /\ (forall s, F32.lt s F32.minus_one = true -> encode [s] = encode [F32.minus_one])
  /\ has_value one_and_a_half (3 # 2)
  /\ has_value minus_two (-2 # 1)
  /\ encode [one_and_a_half] = encode [F32.one]
  /\ encode [F32.one] = Some [xff; x7f]
  /\ sample_to_int16 one_and_a_half = Some 32767
  /\ sample_to_int16 F32.one = Some 32767
  /\ encode [minus_two] = encode [F32.minus_one]
  /\ encode [F32.minus_one] = Some [x01; x80]
  /\ sample_to_int16 minus_two = Some (-32767)
  /\ sample_to_int16 F32.minus_one = Some (-32767)
  /\ Int16.of_bytes xff x7f = 32767
  /\ Int16.of_bytes x01 x80 = -32767.
Proof.
  split; [exact encode_above_one |].
  split; [exact encode_below_minus_one |].
  split; [eexists; split; [reflexivity | vm_compute; reflexivity] |].
  split; [eexists; split; [reflexivity | vm_compute; reflexivity] |].
  repeat split; reflexivity.
Qed.

Lemma encode_out_of_range_witness :
  F32.lt F32.one one_and_a_half = true
  /\ encode [one_and_a_half] = encode [F32.one]
  /\ F32.lt minus_two F32.minus_one = true
  /\ encode [minus_two] = encode [F32.minus_one].
Proof.
  split; [reflexivity |].
  split; [apply (proj1 encode_out_of_range one_and_a_half); reflexivity |].
  split; [reflexivity |].
  apply (proj1 (proj2 encode_out_of_range) minus_two); reflexivity.
Defined.

(** C7: both operations are total.  Every byte sequence decodes to a
    result made of valid finite floats, whatever its length and whatever
    the bytes, and every one of the 65536 byte pairs decodes to one sample;
    every sequence of valid floats, NaN and infinities included, encodes to
    a result. *)
Theorem codec_total :
  (forall bytes : list byte,
      exists out, decode bytes = Some out
                  /\ Forall (fun x => F32.valid x = true /\ is_Some (F32.to_Q x)) out)
  /\ (forall lo hi : byte, exists x, decode [lo; hi] = Some [x])
  /\ (forall samples : list spec_float,
        Forall (fun s => F32.valid s = true) samples ->
        exists out, encode samples = Some out).
Proof.
  split; [| split].
  - intros bytes. destruct (decode_spec bytes) as (out & Hout & Hlen & Hsamples).
    exists out. split; [exact Hout |].
    apply Forall_lookup_2. intros j x Hx.
    destruct (Hsamples j) as (lo & hi & _ & _ & Hj).
    { apply lookup_lt_Some in Hx. lia. }
    assert (x = int16_to_sample lo hi) as -> by congruence.
    destruct (of_bytes_range lo hi) as [Hrange _].
    destruct (normalise_exact _ Hrange) as (Hvalid & q & Hq & _).
    split; [exact Hvalid |]. exists q. exact Hq.
  - intros lo hi. exists (int16_to_sample lo hi). apply decode_pair.
  - intros samples Hvalid.
    destruct (encode_spec samples Hvalid) as (out & Hout & _).
    exists out. exact Hout.
Qed.

Lemma codec_total_witness :
  Forall (fun s => F32.valid s = true)
    [S754_nan; S754_infinity false; S754_infinity true; minus_two; S754_zero true]
  /\ exists out,
       encode [S754_nan; S754_infinity false; S754_infinity true; minus_two; S754_zero true]
       = Some out.
Proof.
  split; [repeat constructor |].
  apply (proj2 (proj2 codec_total)
           [S754_nan; S754_infinity false; S754_infinity true; minus_two; S754_zero true]).
  repeat constructor.
Defined.

Section MachineRuns.

(** The address a call allocates at holds no live object. *)
Lemma fresh_not_live (h : gmap nat Machine.object) : h !! fresh (dom h) = None.
Proof. apply not_elem_of_dom. apply is_fresh. Qed.

(** The decoding loop on the memory does what [pcm16ToFloat_loop] does on
    the contents, and touches the vector [samples] only. *)
Lemma pcm16ToFloat_loop_run (data samples : nat) (bytes : list byte) (n : nat) :
  data <> samples ->
  forall (i : nat) (l l' : list spec_float) (h : gmap nat Machine.object),
    h !! data = Some (Machine.Bytes bytes) ->
    h !! samples = Some (Machine.Floats l) ->
    (i + n <= length l)%nat ->
    pcm16ToFloat_loop bytes n i l = Some l' ->
    Machine.pcm16ToFloat_loop data samples n i h
    = Some (tt, <[samples := Machine.Floats l']> h).
Proof.
  intros Hne. induction n as [| n IH]; intros i l l' h Hdata Hsamples Hlen Hloop.
  - cbn in Hloop. injection Hloop as <-. cbn. unfold Machine.ret.
    rewrite insert_id by assumption. reflexivity.
  - cbn [pcm16ToFloat_loop] in Hloop.
    destruct (load_int16 bytes i) as [v |] eqn:Hv; [| discriminate].
    cbn in Hloop.
    unfold load_int16 in Hv.
    destruct (bytes !! (2 * i)%nat) as [lo |] eqn:Hlo; [| discriminate].
    destruct (bytes !! (2 * i + 1)%nat) as [hi |] eqn:Hhi; [| discriminate].
    cbn in Hv. injection Hv as <-.
    cbn [Machine.pcm16ToFloat_loop].
    unfold Machine.bind at 1. unfold Machine.load_int16, Machine.bind, Machine.load_byte, Machine.ret.
    rewrite Hdata, Hlo, Hdata, Hhi.
    unfold Machine.store_float. rewrite Hsamples.
    destruct (Nat.ltb_spec i (length l)); [| lia].
    rewrite (IH (S i) (<[i := F32.div (F32.of_int (Int16.of_bytes lo hi)) F32.c32768]> l) l').
    + rewrite insert_insert_eq. reflexivity.
    + rewrite lookup_insert_ne by congruence. assumption.
    + rewrite lookup_insert_eq. reflexivity.
    + rewrite length_insert. lia.
    + assumption.
Qed.

(** The same for the encoding loop and the vector [pcmData]. *)
Lemma floatToPcm16_loop_run (samples pcmData : nat) (l : list spec_float) (n : nat) :
  samples <> pcmData ->
  forall (i : nat) (b b' : list byte) (h : gmap nat Machine.object),
    h !! samples = Some (Machine.Floats l) ->
    h !! pcmData = Some (Machine.Bytes b) ->
    (2 * (i + n) <= length b)%nat ->
    floatToPcm16_loop l n i b = Some b' ->
    Machine.floatToPcm16_loop samples pcmData n i h
    = Some (tt, <[pcmData := Machine.Bytes b']> h).
Proof.
  intros Hne. induction n as [| n IH]; intros i b b' h Hsamples Hpcm Hlen Hloop.
  - cbn in Hloop. injection Hloop as <-. cbn. unfold Machine.ret.
    rewrite insert_id by assumption. reflexivity.
  - cbn [floatToPcm16_loop] in Hloop.
    destruct (l !! i) as [s |] eqn:Hs; [| discriminate].
    cbn in Hloop.
    destruct (Int16.of_float (F32.mul (clamp s) F32.c32767)) as [v |] eqn:Hv;
      [| discriminate].
    cbn in Hloop.
    cbn [Machine.floatToPcm16_loop].
    unfold Machine.bind at 1. unfold Machine.load_float. rewrite Hsamples, Hs.
    cbv zeta. unfold Machine.bind at 1. unfold Machine.int16_of_float. rewrite Hv.
    unfold Machine.bind at 1.
    unfold Machine.store_int16, Machine.bind, Machine.store_byte.
    rewrite Hpcm.
    destruct (Nat.ltb_spec (2 * i) (length b)); [| lia].
    rewrite lookup_insert_eq, length_insert.
    destruct (Nat.ltb_spec (2 * i + 1) (length b)); [| lia].
    rewrite insert_insert_eq.
    rewrite (IH (S i) (store_int16 b i v) b').
    + rewrite insert_insert_eq. reflexivity.
    + rewrite lookup_insert_ne by congruence. assumption.
    + rewrite lookup_insert_eq. reflexivity.
    + unfold store_int16. rewrite !length_insert. lia.
    + assumption.
Qed.

(** A call of [pcm16ToFloat] adds one object to the memory, the vector it
    returns, whose contents are those [AudioBufferUtils.pcm16ToFloat] gives
    for the bytes behind the pointer. *)
Lemma pcm16ToFloat_run (h : gmap nat Machine.object) (data : nat)
    (bytes : list byte) (byteLength : nat) :
  h !! data = Some (Machine.Bytes bytes) ->
  (byteLength <= length bytes)%nat ->
  exists out,
    pcm16ToFloat bytes byteLength = Some out
    /\ Machine.pcm16ToFloat data byteLength h
       = Some (fresh (dom h), <[fresh (dom h) := Machine.Floats out]> h).
Proof.
  intros Hdata Hlen.
  destruct (pcm16ToFloat_spec bytes byteLength Hlen) as (out & Hout & _).
  exists out. split; [exact Hout |].
  pose proof (fresh_not_live h) as Hfresh.
  unfold Machine.pcm16ToFloat. cbv zeta.
  unfold Machine.bind at 1. unfold Machine.new_floats. cbv zeta.
  set (p := fresh (dom h)) in *.
  assert (Hne : data <> p) by congruence.
  unfold Machine.bind at 1.
  rewrite (pcm16ToFloat_loop_run data p bytes (byteLength / 2) Hne 0
             (replicate (byteLength / 2) F32.zero) out).
  - unfold Machine.ret. rewrite insert_insert_eq. reflexivity.
  - rewrite lookup_insert_ne by congruence. assumption.
  - rewrite lookup_insert_eq. reflexivity.
  - rewrite length_replicate. lia.
  - exact Hout.
Qed.

(** The same for a call of [floatToPcm16]. *)
Lemma floatToPcm16_run (h : gmap nat Machine.object) (samples : nat)
    (l : list spec_float) :
  h !! samples = Some (Machine.Floats l) ->
  Forall (fun s => F32.valid s = true) l ->
  exists out,
    floatToPcm16 l = Some out
    /\ Machine.floatToPcm16 samples h
       = Some (fresh (dom h), <[fresh (dom h) := Machine.Bytes out]> h).
Proof.
  intros Hsamples Hvalid.
  destruct (encode_spec l Hvalid) as (out & Hout & _).
  exists out. split; [exact Hout |].
  pose proof (fresh_not_live h) as Hfresh.
  unfold Machine.floatToPcm16.
  unfold Machine.bind at 1. unfold Machine.size_floats. rewrite Hsamples.
  unfold Machine.bind at 1. unfold Machine.new_bytes. cbv zeta.
  set (p := fresh (dom h)) in *.
  assert (Hne : samples <> p) by congruence.
  unfold Machine.bind at 1.
  rewrite (floatToPcm16_loop_run samples p l (length l) Hne 0
             (replicate (length l * 2) x00) out).
  - unfold Machine.ret. rewrite insert_insert_eq. reflexivity.
  - rewrite lookup_insert_ne by congruence. assumption.
  - rewrite lookup_insert_eq. reflexivity.
  - rewrite length_replicate. lia.
  - exact Hout.
Qed.

End MachineRuns.

(** C8: both operations are functions of their input alone, whatever the
    memory they are called in.  Two calls of [pcm16ToFloat], in any two
    memories, on buffers that hold the same [byteLength] bytes return
    vectors of equal contents, and so do two calls of [floatToPcm16] on
    vectors of equal contents; a call leaves every object of the memory as
    it was and adds one object, the vector it returns, at an address that
    was not live.  So nothing a call does reaches a later call: a caller
    that decodes, encodes and decodes again gets the same samples twice, in
    two different vectors, and finds its buffer and its vector unchanged. *)
Theorem codec_deterministic :
  (forall (h1 h2 : gmap nat Machine.object) (data1 data2 : nat)
          (bytes1 bytes2 : list byte) (byteLength : nat),
     h1 !! data1 = Some (Machine.Bytes bytes1) ->
     h2 !! data2 = Some (Machine.Bytes bytes2) ->
     (byteLength <= length bytes1)%nat ->
     (byteLength <= length bytes2)%nat ->
     take byteLength bytes1 = take byteLength bytes2 ->
     exists (p1 p2 : nat) (out : list spec_float),
       Machine.pcm16ToFloat data1 byteLength h1
       = Some (p1, <[p1 := Machine.Floats out]> h1)
       /\ Machine.pcm16ToFloat data2 byteLength h2
          = Some (p2, <[p2 := Machine.Floats out]> h2)
       /\ h1 !! p1 = None /\ h2 !! p2 = None
       /\ pcm16ToFloat bytes1 byteLength = Some out)
  /\ (forall (h1 h2 : gmap nat Machine.object) (samples1 samples2 : nat)
             (samples : list spec_float),
        h1 !! samples1 = Some (Machine.Floats samples) ->
        h2 !! samples2 = Some (Machine.Floats samples) ->
        Forall (fun s => F32.valid s = true) samples ->
        exists (p1 p2 : nat) (out : list byte),
          Machine.floatToPcm16 samples1 h1
          = Some (p1, <[p1 := Machine.Bytes out]> h1)
          /\ Machine.floatToPcm16 samples2 h2
             = Some (p2, <[p2 := Machine.Bytes out]> h2)
          /\ h1 !! p1 = None /\ h2 !! p2 = None
          /\ floatToPcm16 samples = Some out)
  /\ (forall (h : gmap nat Machine.object) (data samples : nat)
             (bytes : list byte) (byteLength : nat) (floats : list spec_float),
        h !! data = Some (Machine.Bytes bytes) ->
        (byteLength <= length bytes)%nat ->
        h !! samples = Some (Machine.Floats floats) ->
        Forall (fun s => F32.valid s = true) floats ->
        exists (first pcmData second : nat) (h' : gmap nat Machine.object)
               (out : list spec_float) (pcm : list byte),
          Machine.decode_encode_decode data byteLength samples h
          = Some ((first, pcmData, second), h')
          /\ h' !! first = Some (Machine.Floats out)
          /\ h' !! second = Some (Machine.Floats out)
          /\ h' !! pcmData = Some (Machine.Bytes pcm)
          /\ first <> second
          /\ h' = <[second := Machine.Floats out]>
                    (<[pcmData := Machine.Bytes pcm]>
                       (<[first := Machine.Floats out]> h))
          /\ h !! first = None /\ h !! pcmData = None /\ h !! second = None
          /\ h' !! data = Some (Machine.Bytes bytes)
          /\ h' !! samples = Some (Machine.Floats floats)
          /\ pcm16ToFloat bytes byteLength = Some out
          /\ floatToPcm16 floats = Some pcm).
Proof.
  split; [| split].
  - intros h1 h2 data1 data2 bytes1 bytes2 byteLength H1 H2 Hl1 Hl2 Htake.
    destruct (pcm16ToFloat_run h1 data1 bytes1 byteLength H1 Hl1) as (out & Ho1 & Hr1).
    destruct (pcm16ToFloat_run h2 data2 bytes2 byteLength H2 Hl2) as (out2 & Ho2 & Hr2).
    assert (Hagree : pcm16ToFloat bytes1 byteLength = pcm16ToFloat bytes2 byteLength).
    { apply pcm16ToFloat_agree; [assumption | assumption | reflexivity |].
      pose proof (Nat.Div0.mul_div_le byteLength 2) as Hle.
      apply (f_equal (take (2 * (byteLength / 2)))) in Htake.
      rewrite !take_take, Nat.min_l in Htake by lia.
      exact Htake. }
    assert (out2 = out) as -> by congruence.
    exists (fresh (dom h1)), (fresh (dom h2)), out.
    split; [exact Hr1 |]. split; [exact Hr2 |].
    split; [apply fresh_not_live |]. split; [apply fresh_not_live | exact Ho1].
  - intros h1 h2 samples1 samples2 samples H1 H2 Hvalid.
    destruct (floatToPcm16_run h1 samples1 samples H1 Hvalid) as (out & Ho1 & Hr1).
    destruct (floatToPcm16_run h2 samples2 samples H2 Hvalid) as (out2 & Ho2 & Hr2).
    assert (out2 = out) as -> by congruence.
    exists (fresh (dom h1)), (fresh (dom h2)), out.
    split; [exact Hr1 |]. split; [exact Hr2 |].
    split; [apply fresh_not_live |]. split; [apply fresh_not_live | exact Ho1].
  - intros h data samples bytes byteLength floats Hdata Hlen Hsamples Hvalid.
    destruct (pcm16ToFloat_run h data bytes byteLength Hdata Hlen) as (out & Ho1 & Hr1).
    pose proof (fresh_not_live h) as Hf1.
    set (first := fresh (dom h)) in *.
    set (ha := <[first := Machine.Floats out]> h) in *.
    assert (Hdata_a : ha !! data = Some (Machine.Bytes bytes))
      by (subst ha; rewrite lookup_insert_ne by congruence; assumption).
    assert (Hsamples_a : ha !! samples = Some (Machine.Floats floats))
      by (subst ha; rewrite lookup_insert_ne by congruence; assumption).
    destruct (floatToPcm16_run ha samples floats Hsamples_a Hvalid) as (pcm & Hp & Hr2).
    pose proof (fresh_not_live ha) as Hf2.
    set (pcmData := fresh (dom ha)) in *.
    set (hb := <[pcmData := Machine.Bytes pcm]> ha) in *.
    assert (Hdata_b : hb !! data = Some (Machine.Bytes bytes))
      by (subst hb; rewrite lookup_insert_ne by congruence; assumption).
    assert (Hsamples_b : hb !! samples = Some (Machine.Floats floats))
      by (subst hb; rewrite lookup_insert_ne by congruence; assumption).
    assert (Hfirst_a : ha !! first = Some (Machine.Floats out))
      by (subst ha; apply lookup_insert_eq).
    assert (Hfirst_b : hb !! first = Some (Machine.Floats out))
      by (subst hb; rewrite lookup_insert_ne by congruence; assumption).
    assert (Hpcm_b : hb !! pcmData = Some (Machine.Bytes pcm))
      by (subst hb; apply lookup_insert_eq).
    destruct (pcm16ToFloat_run hb data bytes byteLength Hdata_b Hlen) as (out3 & Ho3 & Hr3).
    assert (out3 = out) as -> by congruence.
    pose proof (fresh_not_live hb) as Hf3.
    set (second := fresh (dom hb)) in *.
    exists first, pcmData, second, (<[second := Machine.Floats out]> hb), out, pcm.
    split.
    { unfold Machine.decode_encode_decode, Machine.bind. rewrite Hr1, Hr2, Hr3. reflexivity. }
    split; [rewrite lookup_insert_ne by congruence; assumption |].
    split; [apply lookup_insert_eq |].
    split; [rewrite lookup_insert_ne by congruence; assumption |].
    split; [congruence |]. split; [reflexivity |].
    assert (Hn2 : h !! pcmData = None).
    { pose proof Hf2 as Hn. unfold ha in Hn.
      apply lookup_insert_None in Hn as [Hn _]. exact Hn. }
    assert (Hn3 : h !! second = None).
    { pose proof Hf3 as Hn. unfold hb, ha in Hn.
      apply lookup_insert_None in Hn as [Hn _].
      apply lookup_insert_None in Hn as [Hn _]. exact Hn. }
    split; [exact Hf1 |]. split; [exact Hn2 |]. split; [exact Hn3 |].
    split; [rewrite lookup_insert_ne by congruence; assumption |].
    split; [rewrite lookup_insert_ne by congruence; assumption |].
    split; assumption.
Qed.

Lemma codec_deterministic_witness :
  ({[ 0%nat := Machine.Bytes [x00; x80; x11] ]} : gmap nat Machine.object) !! 0%nat
  = Some (Machine.Bytes [x00; x80; x11])
  /\ ({[ 4%nat := Machine.Bytes [x00; x80; x22; x33];
         1%nat := Machine.Floats [F32.one] ]} : gmap nat Machine.object) !! 4%nat
     = Some (Machine.Bytes [x00; x80; x22; x33])
  /\ (2 <= length [x00; x80; x11])%nat
  /\ (2 <= length [x00; x80; x22; x33])%nat
  /\ take 2 [x00; x80; x11] = take 2 [x00; x80; x22; x33]
  /\ exists (p1 p2 : nat) (out : list spec_float),
       Machine.pcm16ToFloat 0 2 {[ 0%nat := Machine.Bytes [x00; x80; x11] ]}
       = Some (p1, <[p1 := Machine.Floats out]>
                     {[ 0%nat := Machine.Bytes [x00; x80; x11] ]})
       /\ Machine.pcm16ToFloat 4 2
            {[ 4%nat := Machine.Bytes [x00; x80; x22; x33];
               1%nat := Machine.Floats [F32.one] ]}
          = Some (p2, <[p2 := Machine.Floats out]>
                        {[ 4%nat := Machine.Bytes [x00; x80; x22; x33];
                           1%nat := Machine.Floats [F32.one] ]})
       /\ ({[ 0%nat := Machine.Bytes [x00; x80; x11] ]} : gmap nat Machine.object) !! p1 = None
       /\ ({[ 4%nat := Machine.Bytes [x00; x80; x22; x33];
              1%nat := Machine.Floats [F32.one] ]} : gmap nat Machine.object) !! p2 = None
       /\ pcm16ToFloat [x00; x80; x11] 2 = Some out.
Proof.
  split; [reflexivity |]. split; [reflexivity |].
  split; [vm_compute; lia |]. split; [vm_compute; lia |]. split; [reflexivity |].
  apply (proj1 codec_deterministic
           {[ 0%nat := Machine.Bytes [x00; x80; x11] ]}
           {[ 4%nat := Machine.Bytes [x00; x80; x22; x33];
              1%nat := Machine.Floats [F32.one] ]}
           0%nat 4%nat [x00; x80; x11] [x00; x80; x22; x33] 2%nat);
    [reflexivity | reflexivity | vm_compute; lia | vm_compute; lia | reflexivity].
Defined.

(** C9: [std::min(1.0f, NaN)] is [1.0f], so a NaN is clamped to [1.0] and
    encodes to the integer 32767, bytes [0xFF, 0x7F], wherever it stands in
    the input; [+infinity] encodes to 32767 as well and [-infinity] to
    -32767, bytes [0x01, 0x80]. *)
Theorem encode_nan_infinity (samples : list spec_float) (i : nat) :
  Forall (fun s => F32.valid s = true) samples ->
  exists out,
    encode samples = Some out
    /\ (samples !! i = Some S754_nan ->
          out !! (2 * i)%nat = Some xff /\ out !! (2 * i + 1)%nat = Some x7f)
    /\ (samples !! i = Some (S754_infinity false) ->
          out !! (2 * i)%nat = Some xff /\ out !! (2 * i + 1)%nat = Some x7f)
    /\ (samples !! i = Some (S754_infinity true) ->
          out !! (2 * i)%nat = Some x01 /\ out !! (2 * i + 1)%nat = Some x80)
    /\ std_min F32.one S754_nan = F32.one
    /\ clamp S754_nan = F32.one
    /\ sample_to_int16 S754_nan = Some 32767
    /\ sample_to_int16 (S754_infinity false) = Some 32767
    /\ sample_to_int16 (S754_infinity true) = Some (-32767).
Proof.
  intros Hvalid.
  destruct (encode_spec samples Hvalid) as (out & Hout & _ & Hbytes).
  exists out. split; [exact Hout |].
  assert (Hcase : forall s v lo hi,
             sample_to_int16 s = Some v ->
             Int16.lo_byte v = lo -> Int16.hi_byte v = hi ->
             samples !! i = Some s ->
             out !! (2 * i)%nat = Some lo /\ out !! (2 * i + 1)%nat = Some hi).
  { intros s v lo hi Hv <- <- Hs.
    destruct (Hbytes i s Hs) as (v' & Hv' & _ & Hlo & Hhi).
    assert (v' = v) as -> by congruence. split; assumption. }
  split; [apply (Hcase S754_nan 32767); reflexivity |].
  split; [apply (Hcase (S754_infinity false) 32767); reflexivity |].
  split; [apply (Hcase (S754_infinity true) (-32767)); reflexivity |].
  repeat split; reflexivity.
Qed.

Lemma encode_nan_infinity_witness :
  Forall (fun s => F32.valid s = true) [above_half; S754_nan; S754_infinity true]
  /\ exists out,
       encode [above_half; S754_nan; S754_infinity true] = Some out
       /\ ([above_half; S754_nan; S754_infinity true] !! 1%nat = Some S754_nan ->
             out !! (2 * 1)%nat = Some xff /\ out !! (2 * 1 + 1)%nat = Some x7f)
       /\ ([above_half; S754_nan; S754_infinity true] !! 1%nat = Some (S754_infinity false) ->
             out !! (2 * 1)%nat = Some xff /\ out !! (2 * 1 + 1)%nat = Some x7f)
       /\ ([above_half; S754_nan; S754_infinity true] !! 1%nat = Some (S754_infinity true) ->
             out !! (2 * 1)%nat = Some x01 /\ out !! (2 * 1 + 1)%nat = Some x80)
       /\ std_min F32.one S754_nan = F32.one
       /\ clamp S754_nan = F32.one
       /\ sample_to_int16 S754_nan = Some 32767
       /\ sample_to_int16 (S754_infinity false) = Some 32767
       /\ sample_to_int16 (S754_infinity true) = Some (-32767).
Proof.
  split; [repeat constructor |].
  apply (encode_nan_infinity [above_half; S754_nan; S754_infinity true] 1%nat).
  repeat constructor.
Defined.

(** C10: every 16-bit integer encoding produces lies in [-32767, 32767]:
    the value -32768, the byte pair [0x00, 0x80] at an even offset, is never
    produced. *)
Theorem encode_never_min (samples : list spec_float) :
  Forall (fun s => F32.valid s = true) samples ->
  exists out,
    encode samples = Some out
    /\ forall i, (i < length samples)%nat ->
         exists lo hi,
           out !! (2 * i)%nat = Some lo
           /\ out !! (2 * i + 1)%nat = Some hi
           /\ -32767 <= Int16.of_bytes lo hi <= 32767
           /\ Int16.of_bytes lo hi <> -32768
           /\ (lo, hi) <> (x00, x80).
Proof.
  intros Hvalid.
  destruct (encode_spec samples Hvalid) as (out & Hout & _ & Hbytes).
  exists out. split; [exact Hout |].
  intros i Hi. destruct (lookup_lt_is_Some_2 samples i Hi) as [s Hs].
  destruct (Hbytes i s Hs) as (v & _ & Hrange & Hlo & Hhi).
  exists (Int16.lo_byte v), (Int16.hi_byte v).
  split; [exact Hlo |]. split; [exact Hhi |].
  rewrite store_load by lia.
  split; [exact Hrange |]. split; [lia |].
  intros Heq. assert (Hv : Int16.of_bytes (Int16.lo_byte v) (Int16.hi_byte v) = -32768).
  { injection Heq as -> ->. reflexivity. }
  rewrite store_load in Hv by lia. lia.
Qed.

Lemma encode_never_min_witness :
  Forall (fun s => F32.valid s = true) [minus_two; S754_infinity true; F32.minus_one]
  /\ exists out,
       encode [minus_two; S754_infinity true; F32.minus_one] = Some out
       /\ forall i, (i < length [minus_two; S754_infinity true; F32.minus_one])%nat ->
            exists lo hi,
              out !! (2 * i)%nat = Some lo
              /\ out !! (2 * i + 1)%nat = Some hi
              /\ -32767 <= Int16.of_bytes lo hi <= 32767
              /\ Int16.of_bytes lo hi <> -32768
              /\ (lo, hi) <> (x00, x80).
Proof.
  split; [repeat constructor |].
  apply (encode_never_min [minus_two; S754_infinity true; F32.minus_one]).
  repeat constructor.
Defined.

(** C5, as the specification states it, fails: the round trip of
    [0.5 + 2^-17], in the middle of the positive range, is [16383 / 32768]
    and deviates by [5 / 131072], more than [1 / 32767]; the round trip of
    [1 - 2^-16] deviates by [3 / 65536]; and the round trip of
    [-(0.5 + 2^-17)], in the middle of the negative range, deviates by
    [5 / 131072] as well.  None of the three is near the negative
    extreme. *)
Lemma round_trip_exceeds_tolerance :
  F32.valid above_half = true
  /\ F32.le F32.zero above_half = true
  /\ F32.le above_half F32.one = true
  /\ has_value above_half (65537 # 131072)
  /\ (exists r q qs,
        round_trip above_half = Some r
        /\ F32.to_Q r = Some q
        /\ F32.to_Q above_half = Some qs
        /\ (Qabs (q - qs) == 5 # 131072)%Q
        /\ (1 # 32767 < Qabs (q - qs))%Q)
  /\ F32.valid near_one = true
  /\ F32.le F32.zero near_one = true
  /\ F32.le near_one F32.one = true
  /\ has_value near_one (65535 # 65536)
  /\ (exists r q qs,
        round_trip near_one = Some r
        /\ F32.to_Q r = Some q
        /\ F32.to_Q near_one = Some qs
        /\ (Qabs (q - qs) == 3 # 65536)%Q
        /\ (1 # 32767 < Qabs (q - qs))%Q)
  /\ F32.valid below_minus_half = true
  /\ F32.le F32.minus_one below_minus_half = true
  /\ F32.le below_minus_half F32.zero = true
  /\ has_value below_minus_half (-65537 # 131072)
  /\ (exists r q qs,
        round_trip below_minus_half = Some r
        /\ F32.to_Q r = Some q
        /\ F32.to_Q below_minus_half = Some qs
        /\ (Qabs (q - qs) == 5 # 131072)%Q
        /\ (1 # 32767 < Qabs (q - qs))%Q).
Proof.
  repeat (split; [reflexivity |]).
  split; [eexists; split; [reflexivity | vm_compute; reflexivity] |].
  split.
  { do 3 eexists. repeat (split; [reflexivity |]). split; vm_compute; reflexivity. }
  repeat (split; [reflexivity |]).
  split; [eexists; split; [reflexivity | vm_compute; reflexivity] |].
  split.
  { do 3 eexists. repeat (split; [reflexivity |]). split; vm_compute; reflexivity. }
  repeat (split; [reflexivity |]).
  split; [eexists; split; [reflexivity | vm_compute; reflexivity] |].
  do 3 eexists. repeat (split; [reflexivity |]). split; vm_compute; reflexivity.
Qed.

(** C5, amended: for every float [s] in [[-1.0, 1.0]] the round trip
    [decode(encode([s]))[0]] succeeds and differs from [s] by less than
    [1 / 16384], two steps of the decoder's [1 / 32768] grid; the deviation
    is above [1 / 32767] on the positive side, at [0.5 + 2^-17], and on the
    negative side, at [-(0.5 + 2^-17)]. *)
Theorem round_trip_within_two_steps :
  (forall s : spec_float,
     F32.valid s = true ->
     F32.le F32.minus_one s = true ->
     F32.le s F32.one = true ->
     exists r q qs,
       round_trip s = Some r
       /\ F32.to_Q r = Some q
       /\ F32.to_Q s = Some qs
       /\ (Qabs (q - qs) < 1 # 16384)%Q)
  /\ (exists r q,
        F32.valid above_half = true
        /\ has_value above_half (65537 # 131072)
        /\ round_trip above_half = Some r
        /\ F32.to_Q r = Some q
        /\ (1 # 32767 < Qabs (q - (65537 # 131072)))%Q)
  /\ (exists r q,
        F32.valid below_minus_half = true
        /\ has_value below_minus_half (-65537 # 131072)
        /\ round_trip below_minus_half = Some r
        /\ F32.to_Q r = Some q
        /\ (1 # 32767 < Qabs (q - (-65537 # 131072)))%Q).
Proof.
  split; [| split].
  - intros s Hvalid Hlo Hhi.
    destruct (clamp_is_clamped s) as (_ & _ & Hin).
    specialize (Hin Hlo Hhi).
    destruct s as [sx | sx | | sx m e].
    + exists (S754_zero false), (0 # 1)%Q, (0 # 1)%Q.
      destruct sx; repeat (split; [reflexivity |]); vm_compute; reflexivity.
    + destruct sx; discriminate.
    + discriminate.
    + destruct (clamp_cases _ Hvalid) as [[sx' Hz] | (sx' & m' & e' & Hc & Hb & He & Hm)];
        [congruence |].
      rewrite Hin in Hc. injection Hc as <- <- <-.
      destruct (round_trip_finite sx m e Hb He Hm Hin) as (r & q & Hr & Hq & Hdev).
      exists r, q, (Qmake (cond_Zopp sx (Zpos m)) (Z.to_pos (2 ^ (- e)))).
      split; [exact Hr |]. split; [exact Hq |]. split; [| exact Hdev].
      cbn [F32.to_Q]. destruct (Z.leb_spec 0 e); [lia | reflexivity].
  - do 2 eexists. split; [reflexivity |].
    split; [eexists; split; [reflexivity | vm_compute; reflexivity] |].
    repeat (split; [reflexivity |]). vm_compute; reflexivity.
  - do 2 eexists. split; [reflexivity |].
    split; [eexists; split; [reflexivity | vm_compute; reflexivity] |].
    repeat (split; [reflexivity |]). vm_compute; reflexivity.
Qed.

Lemma round_trip_within_two_steps_witness :
  F32.valid near_one = true
  /\ F32.le F32.minus_one near_one = true
  /\ F32.le near_one F32.one = true
  /\ exists r q qs,
       round_trip near_one = Some r
       /\ F32.to_Q r = Some q
       /\ F32.to_Q near_one = Some qs
       /\ (Qabs (q - qs) < 1 # 16384)%Q.
Proof.
  split; [reflexivity |]. split; [reflexivity |]. split; [reflexivity |].
  apply (proj1 round_trip_within_two_steps near_one); reflexivity.
Defined.

(** * Further properties of the codec *)

Section Chunks.

(** Two buffers of [2 * n] bytes that agree on every pair are equal. *)
Lemma list_eq_pairs {A} (l1 l2 : list A) (n : nat) :
  length l1 = (2 * n)%nat -> length l2 = (2 * n)%nat ->
  (forall j, (j < n)%nat ->
     l1 !! (2 * j)%nat = l2 !! (2 * j)%nat
     /\ l1 !! (2 * j + 1)%nat = l2 !! (2 * j + 1)%nat) ->
  l1 = l2.
Proof.
  intros H1 H2 Hpairs. apply list_eq. intros k.
  destruct (decide (k < 2 * n)%nat) as [Hk | Hk].
  - pose proof (Nat.div_mod_eq k 2) as Hdm.
    pose proof (Nat.mod_upper_bound k 2 ltac:(lia)) as Hr.
    destruct (Hpairs (k / 2)%nat ltac:(lia)) as [He Ho].
    destruct (decide (k mod 2 = 0)%nat) as [H0 | H0].
    + assert (Ek : k = (2 * (k / 2))%nat) by lia. rewrite Ek. exact He.
    + assert (Ek : k = (2 * (k / 2) + 1)%nat) by lia. rewrite Ek. exact Ho.
  - rewrite !lookup_ge_None_2 by lia. reflexivity.
Qed.

Lemma encode_lookup (samples : list spec_float) (out : list byte)
    (j : nat) (s : spec_float) :
  Forall (fun s => F32.valid s = true) samples ->
  encode samples = Some out -> samples !! j = Some s ->
  exists v, sample_to_int16 s = Some v
            /\ -32767 <= v <= 32767
            /\ out !! (2 * j)%nat = Some (Int16.lo_byte v)
            /\ out !! (2 * j + 1)%nat = Some (Int16.hi_byte v).
Proof.
  intros Hvalid Hout Hs.
  destruct (encode_spec samples Hvalid) as (out' & Hout' & _ & Hbytes).
  assert (out' = out) as -> by congruence.
  exact (Hbytes j s Hs).
Qed.

Lemma decode_lookup (bytes : list byte) (out : list spec_float) (j : nat) :
  decode bytes = Some out -> (j < length bytes / 2)%nat ->
  exists lo hi, bytes !! (2 * j)%nat = Some lo
                /\ bytes !! (2 * j + 1)%nat = Some hi
                /\ out !! j = Some (int16_to_sample lo hi).
Proof.
  intros Hout Hj.
  destruct (decode_spec bytes) as (out' & Hout' & _ & Hsamples).
  assert (out' = out) as -> by congruence.
  exact (Hsamples j Hj).
Qed.

Lemma decode_result_length (bytes : list byte) (out : list spec_float) :
  decode bytes = Some out -> length out = (length bytes / 2)%nat.
Proof.
  intros Hout. destruct (decode_spec bytes) as (out' & Hout' & Hlen & _).
  congruence.
Qed.

Lemma encode_result_length (samples : list spec_float) (out : list byte) :
  Forall (fun s => F32.valid s = true) samples ->
  encode samples = Some out -> length out = (2 * length samples)%nat.
Proof.
  intros Hvalid Hout.
  destruct (encode_spec samples Hvalid) as (out' & Hout' & Hlen & _).
  congruence.
Qed.

End Chunks.

(** X1: encoding may be done in chunks: the encoding of a concatenation of
    valid float sequences is the concatenation of their encodings. *)
Theorem encode_app (xs ys : list spec_float) :
  Forall (fun s => F32.valid s = true) xs ->
  Forall (fun s => F32.valid s = true) ys ->
  exists a b,
    encode xs = Some a /\ encode ys = Some b /\ encode (xs ++ ys) = Some (a ++ b).
Proof.
  intros Hxs Hys.
  assert (Hxy : Forall (fun s => F32.valid s = true) (xs ++ ys))
    by (apply Forall_app; split; assumption).
  destruct (encode_spec xs Hxs) as (a & Ha & Hla & _).
  destruct (encode_spec ys Hys) as (b & Hb & Hlb & _).
  destruct (encode_spec (xs ++ ys) Hxy) as (c & Hc & Hlc & _).
  exists a, b. split; [exact Ha |]. split; [exact Hb |].
  rewrite Hc. f_equal. rewrite length_app in Hlc.
  apply (list_eq_pairs c (a ++ b) (length xs + length ys));
    [lia | rewrite length_app; lia |].
  intros j Hj.
  destruct (lookup_lt_is_Some_2 (xs ++ ys) j ltac:(rewrite length_app; lia)) as [s Hs].
  destruct (encode_lookup _ _ j s Hxy Hc Hs) as (v & Hv & _ & Hlo & Hhi).
  rewrite Hlo, Hhi.
  destruct (decide (j < length xs)%nat) as [Hlt | Hge].
  - rewrite lookup_app_l in Hs by assumption.
    destruct (encode_lookup _ _ j s Hxs Ha Hs) as (v' & Hv' & _ & Hlo' & Hhi').
    assert (v' = v) as -> by congruence.
    rewrite !lookup_app_l by lia. split; symmetry; assumption.
  - rewrite lookup_app_r in Hs by lia.
    destruct (encode_lookup _ _ _ s Hys Hb Hs) as (v' & Hv' & _ & Hlo' & Hhi').
    assert (v' = v) as -> by congruence.
    rewrite !lookup_app_r by lia.
    replace (2 * j - length a)%nat with (2 * (j - length xs))%nat by lia.
    replace (2 * j + 1 - length a)%nat with (2 * (j - length xs) + 1)%nat by lia.
    split; symmetry; assumption.
Qed.

Lemma encode_app_witness :
  Forall (fun s => F32.valid s = true) [above_half; S754_nan]
  /\ Forall (fun s => F32.valid s = true) [minus_two]
  /\ exists a b,
       encode [above_half; S754_nan] = Some a /\ encode [minus_two] = Some b
       /\ encode ([above_half; S754_nan] ++ [minus_two]) = Some (a ++ b).
Proof.
  split; [repeat constructor |]. split; [repeat constructor |].
  apply (encode_app [above_half; S754_nan] [minus_two]); repeat constructor.
Defined.

(** X2: decoding may be done in chunks cut at an even offset: when the
    first buffer has an even number of bytes, the decoding of the
    concatenation is the concatenation of the decodings. *)
Theorem decode_app (bytes1 bytes2 : list byte) :
  Nat.even (length bytes1) = true ->
  exists a b,
    decode bytes1 = Some a /\ decode bytes2 = Some b
    /\ decode (bytes1 ++ bytes2) = Some (a ++ b).
Proof.
  intros Heven. apply Nat.even_spec in Heven as [h Hh].
  destruct (decode_spec bytes1) as (a & Ha & Hla & _).
  destruct (decode_spec bytes2) as (b & Hb & Hlb & _).
  destruct (decode_spec (bytes1 ++ bytes2)) as (c & Hc & Hlc & _).
  exists a, b. split; [exact Ha |]. split; [exact Hb |].
  rewrite Hc. f_equal.
  assert (Hh1 : (length bytes1 / 2 = h)%nat)
    by (rewrite Hh, Nat.mul_comm; apply Nat.div_mul; lia).
  assert (Hh2 : (length (bytes1 ++ bytes2) / 2 = h + length bytes2 / 2)%nat).
  { rewrite length_app, Hh, (Nat.add_comm (2 * h)), (Nat.mul_comm 2 h).
    rewrite Nat.div_add by lia. lia. }
  apply list_eq. intros j.
  destruct (decide (j < length (bytes1 ++ bytes2) / 2)%nat) as [Hj | Hj];
    [| rewrite !lookup_ge_None_2 by (rewrite ?length_app; lia); reflexivity].
  destruct (decode_lookup _ _ j Hc Hj) as (lo & hi & Hlo & Hhi & ->).
  destruct (decide (j < h)%nat) as [Hlt | Hge].
  - rewrite lookup_app_l in Hlo, Hhi by lia.
    destruct (decode_lookup _ _ j Ha ltac:(lia)) as (lo' & hi' & Hlo' & Hhi' & Hj').
    rewrite lookup_app_l by lia. rewrite Hj'. congruence.
  - rewrite lookup_app_r in Hlo, Hhi by lia.
    replace (2 * j - length bytes1)%nat with (2 * (j - h))%nat in Hlo by lia.
    replace (2 * j + 1 - length bytes1)%nat with (2 * (j - h) + 1)%nat in Hhi by lia.
    destruct (decode_lookup _ _ (j - h) Hb ltac:(lia)) as (lo' & hi' & Hlo' & Hhi' & Hj').
    rewrite lookup_app_r by lia.
    replace (j - length a)%nat with (j - h)%nat by lia.
    rewrite Hj'. congruence.
Qed.

Lemma decode_app_witness :
  Nat.even (length [x34; x12; xff; x7f]) = true
  /\ exists a b,
       decode [x34; x12; xff; x7f] = Some a /\ decode [x00; x80; x01] = Some b
       /\ decode ([x34; x12; xff; x7f] ++ [x00; x80; x01]) = Some (a ++ b).
Proof.
  split; [reflexivity |].
  apply (decode_app [x34; x12; xff; x7f] [x00; x80; x01]). reflexivity.
Defined.

Section Lossless.

Lemma load_store_ok_all (lo hi : byte) : load_store_ok lo hi = true.
Proof. revert lo hi. apply bytes_forall. vm_compute. reflexivity. Qed.

Lemma reencode_ok_all (v : Z) : -32768 <= v <= 32767 -> reencode_ok v = true.
Proof. revert v. apply int16_forall. vm_compute. reflexivity. Qed.

(** Reading a pair and storing the integer again gives the pair back. *)
Lemma load_store (lo hi : byte) :
  Int16.lo_byte (Int16.of_bytes lo hi) = lo /\ Int16.hi_byte (Int16.of_bytes lo hi) = hi.
Proof.
  pose proof (load_store_ok_all lo hi) as H. unfold load_store_ok in H. cbv zeta in H.
  apply andb_true_iff in H as [H1 H2].
  split; apply Byte.byte_dec_bl; assumption.
Qed.

Lemma of_bytes_inj (lo hi lo' hi' : byte) :
  Int16.of_bytes lo hi = Int16.of_bytes lo' hi' -> lo = lo' /\ hi = hi'.
Proof.
  intros Heq.
  destruct (load_store lo hi) as [Hlo Hhi]. destruct (load_store lo' hi') as [Hlo' Hhi'].
  rewrite Heq in Hlo, Hhi. split; congruence.
Qed.

(** Distinct byte pairs decode to distinct floats. *)
Lemma int16_to_sample_inj (lo hi lo' hi' : byte) :
  int16_to_sample lo hi = int16_to_sample lo' hi' -> lo = lo' /\ hi = hi'.
Proof.
  intros Heq. apply of_bytes_inj.
  destruct (of_bytes_range lo hi) as [Hr _]. destruct (of_bytes_range lo' hi') as [Hr' _].
  destruct (normalise_exact _ Hr) as (_ & q & Hq & Hqv).
  destruct (normalise_exact _ Hr') as (_ & q' & Hq' & Hqv').
  unfold int16_to_sample in Heq. rewrite Heq in Hq.
  assert (q = q') as -> by congruence.
  rewrite Hqv in Hqv'. unfold Qeq in Hqv'. cbn [Qnum Qden] in Hqv'. lia.
Qed.

Lemma decode_valid (bytes : list byte) (out : list spec_float) :
  decode bytes = Some out -> Forall (fun x => F32.valid x = true) out.
Proof.
  intros Hout. apply Forall_lookup_2. intros j x Hx.
  pose proof (decode_result_length _ _ Hout) as Hlen.
  destruct (decode_lookup _ _ j Hout) as (lo & hi & _ & _ & Hj).
  { apply lookup_lt_Some in Hx. lia. }
  assert (x = int16_to_sample lo hi) as -> by congruence.
  destruct (of_bytes_range lo hi) as [Hrange _].
  apply (normalise_exact _ Hrange).
Qed.

End Lossless.

(** X3: decoding loses nothing of a buffer made of complete pairs: two
    buffers of even length with the same decoding are equal. *)
Theorem decode_injective (bytes1 bytes2 : list byte) :
  Nat.even (length bytes1) = true ->
  Nat.even (length bytes2) = true ->
  decode bytes1 = decode bytes2 ->
  bytes1 = bytes2.
Proof.
  intros [h1 Hh1]%Nat.even_spec [h2 Hh2]%Nat.even_spec Heq.
  destruct (decode_spec bytes1) as (out & Hout1 & Hlen1 & _).
  assert (Hout2 : decode bytes2 = Some out) by congruence.
  pose proof (decode_result_length _ _ Hout2) as Hlen2.
  assert (Hd1 : (length bytes1 / 2 = h1)%nat)
    by (rewrite Hh1, Nat.mul_comm; apply Nat.div_mul; lia).
  assert (Hd2 : (length bytes2 / 2 = h2)%nat)
    by (rewrite Hh2, Nat.mul_comm; apply Nat.div_mul; lia).
  apply (list_eq_pairs bytes1 bytes2 h1); [lia | lia |].
  intros j Hj.
  destruct (decode_lookup _ _ j Hout1 ltac:(lia)) as (lo & hi & Hlo & Hhi & Hs).
  destruct (decode_lookup _ _ j Hout2 ltac:(lia)) as (lo' & hi' & Hlo' & Hhi' & Hs').
  destruct (int16_to_sample_inj lo hi lo' hi' ltac:(congruence)) as [-> ->].
  split; congruence.
Qed.

Lemma decode_injective_witness :
  Nat.even (length [x34; x12; x00; x80]) = true
  /\ Nat.even (length [x34; x12; x00; x80]) = true
  /\ decode [x34; x12; x00; x80] = decode [x34; x12; x00; x80]
  /\ [x34; x12; x00; x80] = [x34; x12; x00; x80].
Proof.
  split; [reflexivity |]. split; [reflexivity |]. split; [reflexivity |].
  apply (decode_injective [x34; x12; x00; x80] [x34; x12; x00; x80]); reflexivity.
Defined.

(** X4: decoding and encoding again is lossy: every 16-bit integer of the
    buffer comes back one step closer to zero ([v - 1] for a positive [v],
    [v + 1] for a negative one, 0 for 0), so only silence survives the trip
    unchanged. *)
Theorem reencode_one_step_closer (bytes : list byte) :
  exists samples out,
    decode bytes = Some samples
    /\ encode samples = Some out
    /\ length out = (2 * (length bytes / 2))%nat
    /\ forall j, (j < length bytes / 2)%nat ->
         exists lo hi lo' hi',
           bytes !! (2 * j)%nat = Some lo /\ bytes !! (2 * j + 1)%nat = Some hi
           /\ out !! (2 * j)%nat = Some lo' /\ out !! (2 * j + 1)%nat = Some hi'
           /\ Int16.of_bytes lo' hi'
              = Int16.of_bytes lo hi - Z.sgn (Int16.of_bytes lo hi).
Proof.
  destruct (decode_spec bytes) as (samples & Hdec & Hlen & _).
  pose proof (decode_valid _ _ Hdec) as Hvalid.
  destruct (encode_spec samples Hvalid) as (out & Henc & Hlo & _).
  exists samples, out. split; [exact Hdec |]. split; [exact Henc |].
  split; [lia |].
  intros j Hj.
  destruct (decode_lookup _ _ j Hdec Hj) as (lo & hi & Hblo & Hbhi & Hs).
  destruct (encode_lookup _ _ j _ Hvalid Henc Hs) as (w & Hw & Hwr & Holo & Hohi).
  exists lo, hi, (Int16.lo_byte w), (Int16.hi_byte w).
  repeat (split; [assumption |]).
  rewrite store_load by lia.
  destruct (of_bytes_range lo hi) as [Hrange _].
  pose proof (reencode_ok_all _ Hrange) as Hok. unfold reencode_ok in Hok.
  unfold int16_to_sample in Hw. rewrite Hw in Hok. apply Z.eqb_eq, Hok.
Qed.

(** X5: every decoded sample lies in [[-1, 1)]: [+1.0] is never produced,
    and [-1.0] only by the byte pair [0x00, 0x80]. *)
Theorem decode_range (bytes : list byte) :
  exists out,
    decode bytes = Some out
    /\ forall j, (j < length bytes / 2)%nat ->
         exists lo hi r q,
           bytes !! (2 * j)%nat = Some lo /\ bytes !! (2 * j + 1)%nat = Some hi
           /\ out !! j = Some r
           /\ F32.to_Q r = Some q
           /\ (-1 <= q)%Q /\ (q < 1)%Q
           /\ ((q == -1)%Q -> lo = x00 /\ hi = x80).
Proof.
  destruct (decode_spec bytes) as (out & Hdec & _ & Hsamples).
  exists out. split; [exact Hdec |]. intros j Hj.
  destruct (Hsamples j Hj) as (lo & hi & Hlo & Hhi & Hs).
  destruct (of_bytes_range lo hi) as [Hrange _].
  destruct (normalise_exact _ Hrange) as (_ & q & Hq & Hqv).
  exists lo, hi, (int16_to_sample lo hi), q.
  repeat (split; [assumption |]).
  rewrite Hqv. unfold Qle, Qlt, Qeq. cbn [Qnum Qden].
  split; [lia |]. split; [lia |].
  intros Hm. apply of_bytes_inj.
  change (Int16.of_bytes x00 x80) with (-32768). lia.
Qed.

Section Quantisation.

(** The integer side of the quantisation: [t] is the integer stored for the
    magnitude [mm / W]; it is less than one away from [32767 * mm / W]. *)
Lemma quantisation_int (mm W t : Z) :
  0 < mm -> 0 < W ->
  (forall K : Z, (mm * 32767 <= K * W -> t <= K) /\ (K * W <= mm * 32767 -> K <= t)) ->
  - W < t * W - 32767 * mm < W.
Proof.
  intros Hm HW HK.
  pose proof (Z.div_mod (mm * 32767) W ltac:(lia)) as Hdm.
  pose proof (Z.mod_pos_bound (mm * 32767) W ltac:(lia)) as Hr.
  set (K1 := mm * 32767 / W) in *. set (r := (mm * 32767) mod W) in *.
  assert (Hlo : K1 <= t) by (apply (HK K1); lia).
  assert (K1 * W <= t * W) by (apply Z.mul_le_mono_nonneg_r; lia).
  destruct (Z.eq_dec r 0) as [Hr0 | Hr0].
  - assert (Hhi : t <= K1) by (apply (HK K1); lia).
    assert (t * W <= K1 * W) by (apply Z.mul_le_mono_nonneg_r; lia). lia.
  - assert (Hhi : t <= K1 + 1) by (apply (HK (K1 + 1)); lia).
    assert (t * W <= (K1 + 1) * W) by (apply Z.mul_le_mono_nonneg_r; lia). lia.
Qed.

Lemma in_range_finite (sx : bool) (m : positive) (e : Z) :
  F32.valid (S754_finite sx m e) = true ->
  F32.le F32.minus_one (S754_finite sx m e) = true ->
  F32.le (S754_finite sx m e) F32.one = true ->
  clamp (S754_finite sx m e) = S754_finite sx m e
  /\ bounded F32.prec F32.emax m e = true /\ e <= -23 /\ Zpos m <= 2 ^ (- e).
Proof.
  intros Hvalid Hlo Hhi.
  destruct (clamp_is_clamped (S754_finite sx m e)) as (_ & _ & Hin).
  specialize (Hin Hlo Hhi).
  destruct (clamp_cases _ Hvalid) as [[sx' Hz] | (sx' & m' & e' & Hc & Hb & He & Hm)];
    [congruence |].
  rewrite Hin in Hc. injection Hc as <- <- <-. auto.
Qed.

End Quantisation.

(** X6: the integer stored for a float [s] of [[-1.0, 1.0]] is less than
    one unit away from the exact product [32767 * s], has the sign of [s],
    and is that product itself whenever the product is an integer. *)
Theorem encode_quantisation (s : spec_float) :
  F32.valid s = true ->
  F32.le F32.minus_one s = true ->
  F32.le s F32.one = true ->
  exists v qs,
    sample_to_int16 s = Some v
    /\ F32.to_Q s = Some qs
    /\ (Qabs (inject_Z v - (32767 # 1) * qs) < 1)%Q
    /\ ((0 <= qs)%Q -> 0 <= v)
    /\ ((qs <= 0)%Q -> v <= 0)
    /\ (forall K : Z, ((32767 # 1) * qs == inject_Z K)%Q -> v = K).
Proof.
  intros Hvalid Hlo Hhi.
  destruct s as [sx | sx | | sx m e].
  - exists 0, (0 # 1)%Q. split; [destruct sx; reflexivity |]. split; [reflexivity |].
    split; [vm_compute; reflexivity |]. split; [lia |]. split; [lia |].
    intros K HK. unfold Qeq in HK. cbn in HK. lia.
  - destruct sx; discriminate.
  - discriminate.
  - destruct (in_range_finite sx m e Hvalid Hlo Hhi) as (Hclamp & Hb & He & Hm).
    destruct (mul_c32767_trunc sx m e Hb He) as (t & Ht & HK).
    assert (HW : 0 < 2 ^ (- e)) by pow2_pos.
    pose proof (quantisation_int (Zpos m) (2 ^ (- e)) t ltac:(lia) HW HK) as Hint.
    destruct (HK 32767) as [Hup _]. destruct (HK 0) as [_ Hlow].
    assert (Ht0 : 0 <= t <= 32767) by (split; [apply Hlow | apply Hup]; lia).
    exists (cond_Zopp sx t), (Qmake (cond_Zopp sx (Zpos m)) (Z.to_pos (2 ^ (- e)))).
    split.
    { unfold sample_to_int16. rewrite Hclamp. apply of_float_in_range;
        [assumption | destruct sx; cbn [cond_Zopp]; lia]. }
    split.
    { cbn [F32.to_Q]. destruct (Z.leb_spec 0 e); [lia | reflexivity]. }
    split.
    { apply Qabs_Qlt_condition.
      unfold Qlt, Qminus, Qplus, Qopp, Qmult, inject_Z. cbn [Qnum Qden].
      rewrite !Pos2Z.inj_mul, !Z2Pos.id by assumption.
      destruct sx; cbn [cond_Zopp]; lia. }
    unfold Qle, Qeq, Qmult, inject_Z. cbn [Qnum Qden].
    rewrite ?Pos2Z.inj_mul, !Z2Pos.id by assumption.
    split; [destruct sx; cbn [cond_Zopp]; lia |].
    split; [destruct sx; cbn [cond_Zopp]; lia |].
    intros K HKeq. destruct sx; cbn [cond_Zopp] in *.
    + destruct (HK (- K)) as [H1 H2]. lia.
    + destruct (HK K) as [H1 H2]. lia.
Qed.

Lemma encode_quantisation_witness :
  F32.valid above_half = true
  /\ F32.le F32.minus_one above_half = true
  /\ F32.le above_half F32.one = true
  /\ exists v qs,
       sample_to_int16 above_half = Some v
       /\ F32.to_Q above_half = Some qs
       /\ (Qabs (inject_Z v - (32767 # 1) * qs) < 1)%Q
       /\ ((0 <= qs)%Q -> 0 <= v)
       /\ ((qs <= 0)%Q -> v <= 0)
       /\ (forall K : Z, ((32767 # 1) * qs == inject_Z K)%Q -> v = K).
Proof.
  split; [reflexivity |]. split; [reflexivity |]. split; [reflexivity |].
  apply (encode_quantisation above_half); reflexivity.
Defined.

Section Symmetry.

Lemma binary_round_aux_opp (sx : bool) (M E : Z) (l : location) :
  binary_round_aux F32.prec F32.emax (negb sx) M E l
  = SFopp (binary_round_aux F32.prec F32.emax sx M E l).
Proof.
  unfold binary_round_aux.
  destruct (shr_fexp F32.prec F32.emax M E l) as [mrs e'].
  destruct (shr_fexp F32.prec F32.emax _ e' loc_Exact) as [mrs' e''].
  destruct (shr_m mrs'); [reflexivity | | reflexivity].
  destruct (e'' <=? F32.emax - F32.prec); reflexivity.
Qed.

Lemma mul_opp (x : spec_float) :
  F32.mul (SFopp x) F32.c32767 = SFopp (F32.mul x F32.c32767).
Proof.
  destruct x as [sx | sx | | sx m e]; [destruct sx; reflexivity .. | reflexivity |].
  unfold F32.mul, F32.c32767. cbn [SFopp SFmul].
  rewrite !xorb_false_r. apply binary_round_aux_opp.
Qed.

Lemma clamp_opp (s : spec_float) :
  s <> S754_nan -> clamp (SFopp s) = SFopp (clamp s).
Proof.
  intros Hnan. destruct s as [sx | sx | | sx m e]; [| | congruence |].
  - reflexivity.
  - destruct sx; reflexivity.
  - cbn [SFopp]. rewrite !clamp_finite.
    destruct (below_one m e); [reflexivity | destruct sx; reflexivity].
Qed.

Lemma trunc_opp (x : spec_float) (z : Z) :
  F32.trunc x = Some z -> F32.trunc (SFopp x) = Some (- z).
Proof.
  destruct x as [sx | sx | | sx m e]; cbn [F32.trunc SFopp]; try discriminate.
  - intros [= <-]. reflexivity.
  - intros [= <-]. f_equal. destruct sx; cbn [negb cond_Zopp]; lia.
Qed.

Lemma valid_opp (s : spec_float) : F32.valid (SFopp s) = F32.valid s.
Proof. destruct s; reflexivity. Qed.

Lemma sample_to_int16_opp (s : spec_float) :
  F32.valid s = true -> s <> S754_nan ->
  exists v, sample_to_int16 s = Some v /\ sample_to_int16 (SFopp s) = Some (- v)
            /\ -32767 <= v <= 32767.
Proof.
  intros Hvalid Hnan.
  destruct (sample_to_int16_valid s Hvalid) as (v & Hv & Hrange).
  exists v. split; [exact Hv |]. split; [| exact Hrange].
  unfold sample_to_int16 in *. rewrite clamp_opp, mul_opp by assumption.
  destruct (of_float_trunc _ _ Hv) as [Ht _].
  apply of_float_in_range; [apply trunc_opp, Ht | lia].
Qed.

End Symmetry.

(** X7: encoding is odd: negating every sample of a sequence of valid,
    non-NaN floats negates every 16-bit integer of the output. *)
Theorem encode_negated (samples : list spec_float) :
  Forall (fun s => F32.valid s = true) samples ->
  Forall (fun s => s <> S754_nan) samples ->
  exists out out',
    encode samples = Some out
    /\ encode (SFopp <$> samples) = Some out'
    /\ forall i, (i < length samples)%nat ->
         exists lo hi lo' hi',
           out !! (2 * i)%nat = Some lo /\ out !! (2 * i + 1)%nat = Some hi
           /\ out' !! (2 * i)%nat = Some lo' /\ out' !! (2 * i + 1)%nat = Some hi'
           /\ Int16.of_bytes lo' hi' = - Int16.of_bytes lo hi.
Proof.
  intros Hvalid Hnan.
  assert (Hvalid' : Forall (fun s => F32.valid s = true) (SFopp <$> samples)).
  { apply Forall_fmap. eapply Forall_impl; [exact Hvalid |].
    intros s Hs. cbn. rewrite valid_opp. exact Hs. }
  destruct (encode_spec samples Hvalid) as (out & Hout & _ & _).
  destruct (encode_spec _ Hvalid') as (out' & Hout' & _ & _).
  exists out, out'. split; [exact Hout |]. split; [exact Hout' |].
  intros i Hi. destruct (lookup_lt_is_Some_2 samples i Hi) as [s Hs].
  destruct (sample_to_int16_opp s (Forall_lookup_1 _ _ _ _ Hvalid Hs)
              (Forall_lookup_1 _ _ _ _ Hnan Hs)) as (v & Hv & Hv' & Hrange).
  destruct (encode_lookup _ _ i s Hvalid Hout Hs) as (w & Hw & _ & Hlo & Hhi).
  assert (w = v) as -> by congruence.
  assert (Hs' : (SFopp <$> samples) !! i = Some (SFopp s))
    by (rewrite list_lookup_fmap, Hs; reflexivity).
  destruct (encode_lookup _ _ i _ Hvalid' Hout' Hs') as (w' & Hw' & _ & Hlo' & Hhi').
  assert (w' = - v) as -> by congruence.
  exists (Int16.lo_byte v), (Int16.hi_byte v), (Int16.lo_byte (- v)), (Int16.hi_byte (- v)).
  repeat (split; [assumption |]).
  rewrite !store_load by lia. reflexivity.
Qed.

Lemma encode_negated_witness :
  Forall (fun s => F32.valid s = true) [above_half; minus_two; S754_infinity false]
  /\ Forall (fun s => s <> S754_nan) [above_half; minus_two; S754_infinity false]
  /\ exists out out',
       encode [above_half; minus_two; S754_infinity false] = Some out
       /\ encode (SFopp <$> [above_half; minus_two; S754_infinity false]) = Some out'
       /\ forall i, (i < length [above_half; minus_two; S754_infinity false])%nat ->
            exists lo hi lo' hi',
              out !! (2 * i)%nat = Some lo /\ out !! (2 * i + 1)%nat = Some hi
              /\ out' !! (2 * i)%nat = Some lo' /\ out' !! (2 * i + 1)%nat = Some hi'
              /\ Int16.of_bytes lo' hi' = - Int16.of_bytes lo hi.
Proof.
  split; [repeat constructor |]. split; [repeat constructor; discriminate |].
  apply (encode_negated [above_half; minus_two; S754_infinity false]);
    repeat constructor; discriminate.
Defined.

Section Sequences.

Lemma round_trip_value (s : spec_float) (v : Z) :
  sample_to_int16 s = Some v ->
  round_trip s = Some (int16_to_sample (Int16.lo_byte v) (Int16.hi_byte v)).
Proof.
  intros Hv. unfold round_trip. rewrite (encode_singleton _ _ Hv).
  cbn [mbind option_bind]. rewrite decode_pair. reflexivity.
Qed.

(** The bound on the round trip of one float of [[-1.0, 1.0]]. *)
Lemma round_trip_bound (s r : spec_float) :
  F32.valid s = true ->
  F32.le F32.minus_one s = true -> F32.le s F32.one = true ->
  round_trip s = Some r ->
  exists q qs, F32.to_Q r = Some q /\ F32.to_Q s = Some qs
               /\ (Qabs (q - qs) < 1 # 16384)%Q.
Proof.
  intros Hvalid Hlo Hhi Hr.
  destruct s as [sx | sx | | sx m e].
  - exists (0 # 1)%Q, (0 # 1)%Q.
    assert (r = S754_zero false) as -> by (destruct sx; vm_compute in Hr; congruence).
    repeat (split; [reflexivity |]). vm_compute. reflexivity.
  - destruct sx; discriminate.
  - discriminate.
  - destruct (in_range_finite sx m e Hvalid Hlo Hhi) as (Hclamp & Hb & He & Hm).
    destruct (round_trip_finite sx m e Hb He Hm Hclamp) as (r' & q & Hr' & Hq & Hdev).
    assert (r' = r) as -> by congruence.
    exists q, (Qmake (cond_Zopp sx (Zpos m)) (Z.to_pos (2 ^ (- e)))).
    split; [exact Hq |]. split; [| exact Hdev].
    cbn [F32.to_Q]. destruct (Z.leb_spec 0 e); [lia | reflexivity].
Qed.

End Sequences.

(** X8: the round trip of a whole sequence works sample by sample:
    decoding the encoding of [N] valid floats gives [N] floats, the one at
    index [i] being the round trip of [samples[i]] alone, whatever its
    neighbours; when [samples[i]] lies in [[-1.0, 1.0]] it is less than
    [1 / 16384] away from it. *)
Theorem decode_encode_samples (samples : list spec_float) :
  Forall (fun s => F32.valid s = true) samples ->
  exists bytes out,
    encode samples = Some bytes
    /\ decode bytes = Some out
    /\ length out = length samples
    /\ forall i s, samples !! i = Some s ->
         exists r,
           out !! i = Some r
           /\ round_trip s = Some r
           /\ (F32.le F32.minus_one s = true -> F32.le s F32.one = true ->
               exists q qs, F32.to_Q r = Some q /\ F32.to_Q s = Some qs
                            /\ (Qabs (q - qs) < 1 # 16384)%Q).
Proof.
  intros Hvalid.
  destruct (encode_spec samples Hvalid) as (bytes & Henc & Hlen & _).
  destruct (decode_spec bytes) as (out & Hdec & Hlout & _).
  assert (Hhalf : (length bytes / 2 = length samples)%nat)
    by (rewrite Hlen, Nat.mul_comm; apply Nat.div_mul; lia).
  exists bytes, out. split; [exact Henc |]. split; [exact Hdec |].
  split; [lia |].
  intros i s Hs. pose proof (lookup_lt_Some _ _ _ Hs) as Hi.
  destruct (encode_lookup _ _ i s Hvalid Henc Hs) as (v & Hv & _ & Hlo & Hhi).
  destruct (decode_lookup _ _ i Hdec ltac:(lia)) as (lo & hi & Hlo' & Hhi' & Hr).
  assert (lo = Int16.lo_byte v) as -> by congruence.
  assert (hi = Int16.hi_byte v) as -> by congruence.
  pose proof (round_trip_value s v Hv) as Hrt.
  exists (int16_to_sample (Int16.lo_byte v) (Int16.hi_byte v)).
  split; [exact Hr |]. split; [exact Hrt |].
  intros Hge Hle.
  exact (round_trip_bound s _ (Forall_lookup_1 _ _ _ _ Hvalid Hs) Hge Hle Hrt).
Qed.

Lemma decode_encode_samples_witness :
  Forall (fun s => F32.valid s = true) [near_one; S754_nan; above_half]
  /\ exists bytes out,
       encode [near_one; S754_nan; above_half] = Some bytes
       /\ decode bytes = Some out
       /\ length out = length [near_one; S754_nan; above_half]
       /\ forall i s, [near_one; S754_nan; above_half] !! i = Some s ->
            exists r,
              out !! i = Some r
              /\ round_trip s = Some r
              /\ (F32.le F32.minus_one s = true -> F32.le s F32.one = true ->
                  exists q qs, F32.to_Q r = Some q /\ F32.to_Q s = Some qs
                               /\ (Qabs (q - qs) < 1 # 16384)%Q).
Proof.
  split; [repeat constructor |].
  apply (decode_encode_samples [near_one; S754_nan; above_half]).
  repeat constructor.
Defined.

(** X9: whatever the float, NaN and infinities included, the clamped value
    is a number between [-1.0] and [1.0], and clamping it again changes
    nothing. *)
Theorem clamp_range_idempotent (s : spec_float) :
  F32.le F32.minus_one (clamp s) = true
  /\ F32.le (clamp s) F32.one = true
  /\ clamp (clamp s) = clamp s.
Proof.
  destruct s as [sx | sx | | sx m e]; try (repeat split; reflexivity).
  - destruct sx; repeat split; reflexivity.
  - rewrite clamp_finite. destruct (below_one m e) eqn:Hb.
    + rewrite clamp_finite, Hb. split; [| split; [| reflexivity]];
        revert Hb; unfold below_one, F32.le, SFleb, F32.one, F32.minus_one;
        destruct sx; cbn [SFcompare];
        rewrite ?(Z.compare_antisym e (-23)), ?Pos.compare_cont_spec;
        cbn [Pos.switch_Eq]; rewrite ?(Pos.compare_antisym m 8388608);
        destruct (e ?= -23); cbn [CompOpp]; try reflexivity; try discriminate;
        destruct (m ?= 8388608)%positive; cbn [CompOpp]; try reflexivity; discriminate.
    + destruct sx; repeat split; reflexivity.
Qed.

Section Bridge.

Lemma int_of_size_small (n : nat) :
  Z.of_nat n < 2 ^ 31 -> int_of_size n = Z.of_nat n.
Proof.
  intros Hn. unfold int_of_size. cbv zeta.
  rewrite Z.mod_small by lia.
  destruct (Z.ltb_spec (Z.of_nat n) (2 ^ 31)); [reflexivity | lia].
Qed.

(** Past [2 ^ 31 - 1] the conversion to [int] gives a negative number or a
    number smaller than the size. *)
Lemma int_of_size_large (n : nat) :
  2 ^ 31 <= Z.of_nat n -> int_of_size n < Z.of_nat n.
Proof.
  intros Hn. unfold int_of_size. cbv zeta.
  pose proof (Z.mod_pos_bound (Z.of_nat n) (2 ^ 32) ltac:(lia)) as Hmod.
  pose proof (Z.mod_le (Z.of_nat n) (2 ^ 32) ltac:(lia) ltac:(lia)) as Hle.
  destruct (Z.ltb_spec (Z.of_nat n mod 2 ^ 32) (2 ^ 31)); lia.
Qed.

Lemma memcpy_all (dest src : list byte) :
  length dest = length src -> memcpy dest src (length src) = Some src.
Proof.
  intros Hlen. unfold memcpy. rewrite Hlen, Nat.leb_refl. cbn [andb].
  rewrite take_ge, drop_ge, app_nil_r by lia. reflexivity.
Qed.

Lemma memcpy_short (dest src : list byte) (n : nat) :
  (length dest < n)%nat -> memcpy dest src n = None.
Proof.
  intros Hlen. unfold memcpy.
  destruct (Nat.leb_spec n (length dest)); [lia | reflexivity].
Qed.

End Bridge.

(** X10: [floatSamplesToArrayBuffer] hands over exactly the encoded bytes:
    for fewer than [2 ^ 30] valid samples, when the runtime's constructor
    returns a buffer of the [2 * N] bytes it is asked for, the result holds
    the bytes of [floatToPcm16], whatever the new buffer contained. *)
Theorem floatSamplesToArrayBuffer_contents
    (new_ArrayBuffer : Z -> option (list byte))
    (samples : list spec_float) (buffer : list byte) :
  Forall (fun s => F32.valid s = true) samples ->
  2 * Z.of_nat (length samples) < 2 ^ 31 ->
  new_ArrayBuffer (2 * Z.of_nat (length samples)) = Some buffer ->
  length buffer = (2 * length samples)%nat ->
  exists pcmData,
    floatToPcm16 samples = Some pcmData
    /\ floatSamplesToArrayBuffer new_ArrayBuffer samples = Some pcmData.
Proof.
  intros Hvalid Hsize Hnew Hbuf.
  destruct (encode_spec samples Hvalid) as (pcmData & Henc & Hlen & _).
  unfold encode in Henc.
  exists pcmData. split; [exact Henc |].
  unfold floatSamplesToArrayBuffer. rewrite Henc. cbn [mbind option_bind].
  rewrite int_of_size_small by lia.
  replace (Z.of_nat (length pcmData)) with (2 * Z.of_nat (length samples)) by lia.
  rewrite Hnew. cbn [mbind option_bind].
  apply memcpy_all. lia.
Qed.

Lemma floatSamplesToArrayBuffer_contents_witness :
  Forall (fun s => F32.valid s = true) [above_half; S754_nan]
  /\ 2 * Z.of_nat (length [above_half; S754_nan]) < 2 ^ 31
  /\ filled_ArrayBuffer xff (2 * Z.of_nat (length [above_half; S754_nan]))
     = Some [xff; xff; xff; xff]
  /\ length [xff; xff; xff; xff] = (2 * length [above_half; S754_nan])%nat
  /\ exists pcmData,
       floatToPcm16 [above_half; S754_nan] = Some pcmData
       /\ floatSamplesToArrayBuffer (filled_ArrayBuffer xff) [above_half; S754_nan]
          = Some pcmData.
Proof.
  split; [repeat constructor |]. split; [reflexivity |].
  split; [reflexivity |]. split; [reflexivity |].
  apply (floatSamplesToArrayBuffer_contents (filled_ArrayBuffer xff)
           [above_half; S754_nan] [xff; xff; xff; xff]);
    [repeat constructor | reflexivity | reflexivity | reflexivity].
Defined.

(** X11: [floatSamplesToArrayBuffer] fails from [2 ^ 30] samples on: the
    byte count no longer fits the [int] handed to the constructor, which is
    asked for a negative or too small a length; with a runtime that only
    ever returns buffers of the length asked for, the call throws or the
    copy overruns the buffer, although [floatToPcm16] itself succeeded. *)
Theorem floatSamplesToArrayBuffer_overflow
    (new_ArrayBuffer : Z -> option (list byte)) (samples : list spec_float) :
  Forall (fun s => F32.valid s = true) samples ->
  2 ^ 31 <= 2 * Z.of_nat (length samples) ->
  (forall n buffer, new_ArrayBuffer n = Some buffer -> Z.of_nat (length buffer) = n) ->
  (exists pcmData, floatToPcm16 samples = Some pcmData)
  /\ floatSamplesToArrayBuffer new_ArrayBuffer samples = None.
Proof.
  intros Hvalid Hsize Hnew.
  destruct (encode_spec samples Hvalid) as (pcmData & Henc & Hlen & _).
  unfold encode in Henc.
  split; [exists pcmData; exact Henc |].
  unfold floatSamplesToArrayBuffer. rewrite Henc. cbn [mbind option_bind].
  pose proof (int_of_size_large (length pcmData) ltac:(lia)) as Hint.
  destruct (new_ArrayBuffer (int_of_size (length pcmData))) as [buffer |] eqn:Hb;
    [| reflexivity].
  cbn [mbind option_bind]. apply memcpy_short.
  apply Hnew in Hb. lia.
Qed.

Lemma floatSamplesToArrayBuffer_overflow_witness :
  Forall (fun s => F32.valid s = true) (replicate (Z.to_nat (2 ^ 30)) F32.zero)
  /\ 2 ^ 31 <= 2 * Z.of_nat (length (replicate (Z.to_nat (2 ^ 30)) F32.zero))
  /\ (forall n buffer, filled_ArrayBuffer x00 n = Some buffer ->
                       Z.of_nat (length buffer) = n)
  /\ (exists pcmData,
        floatToPcm16 (replicate (Z.to_nat (2 ^ 30)) F32.zero) = Some pcmData)
  /\ floatSamplesToArrayBuffer (filled_ArrayBuffer x00)
       (replicate (Z.to_nat (2 ^ 30)) F32.zero) = None.
Proof.
  assert (Hfill : forall n buffer, filled_ArrayBuffer x00 n = Some buffer ->
                                   Z.of_nat (length buffer) = n).
  { intros n buffer. unfold filled_ArrayBuffer.
    destruct (Z.leb_spec 0 n); [| discriminate].
    intros [= <-]. rewrite length_replicate. apply Z2Nat.id. assumption. }
  assert (Hvalid : Forall (fun s => F32.valid s = true)
                     (replicate (Z.to_nat (2 ^ 30)) F32.zero))
    by (apply Forall_replicate; reflexivity).
  assert (Hsize : 2 ^ 31 <= 2 * Z.of_nat (length (replicate (Z.to_nat (2 ^ 30)) F32.zero))).
  { rewrite length_replicate, Z2Nat.id; [| apply Z.pow_nonneg; discriminate].
    rewrite <- (Z.pow_succ_r 2 30); [apply Z.le_refl | discriminate]. }
  split; [exact Hvalid |]. split; [exact Hsize |]. split; [exact Hfill |].
  exact (floatSamplesToArrayBuffer_overflow (filled_ArrayBuffer x00)
           (replicate (Z.to_nat (2 ^ 30)) F32.zero) Hvalid Hsize Hfill).
Defined.

(** * Order *)

Section Nearest.

Lemma round_shifted_rne (M : Z) (k : nat) :
  0 <= M ->
  round_nearest_even (shr_m (shifted M k)) (loc_of_shr_record (shifted M k))
  = rne M (2 ^ Z.of_nat (S k)).
Proof.
  intros HM. unfold shifted, rne. cbn [shr_m loc_of_shr_record]. cbv zeta.
  assert (Hp : 0 < 2 ^ Z.of_nat k) by pow2_pos.
  replace (2 ^ Z.of_nat (S k)) with (2 ^ Z.of_nat k * 2)
    by (rewrite Nat2Z.inj_succ, Z.pow_succ_r by lia; lia).
  rewrite Z.rem_mul_r by lia.
  pose proof (Z.mod_pos_bound M (2 ^ Z.of_nat k) Hp) as Hs.
  rewrite (Zmod_odd (M / 2 ^ Z.of_nat k)).
  set (q := M / (2 ^ Z.of_nat k * 2)).
  destruct (Z.odd (M / 2 ^ Z.of_nat k)).
  - destruct (Z.eqb_spec (M mod 2 ^ Z.of_nat k) 0) as [H0 | H0]; cbn [negb].
    + destruct (Z.ltb_spec (2 * (M mod 2 ^ Z.of_nat k + 2 ^ Z.of_nat k * 1))
                  (2 ^ Z.of_nat k * 2)); [lia |].
      destruct (Z.eqb_spec (2 * (M mod 2 ^ Z.of_nat k + 2 ^ Z.of_nat k * 1))
                  (2 ^ Z.of_nat k * 2)); [reflexivity | lia].
    + destruct (Z.ltb_spec (2 * (M mod 2 ^ Z.of_nat k + 2 ^ Z.of_nat k * 1))
                  (2 ^ Z.of_nat k * 2)); [lia |].
      destruct (Z.eqb_spec (2 * (M mod 2 ^ Z.of_nat k + 2 ^ Z.of_nat k * 1))
                  (2 ^ Z.of_nat k * 2)); [lia | reflexivity].
  - destruct (Z.ltb_spec (2 * (M mod 2 ^ Z.of_nat k + 2 ^ Z.of_nat k * 0))
                (2 ^ Z.of_nat k * 2)); [| lia].
    destruct (M mod 2 ^ Z.of_nat k =? 0); reflexivity.
Qed.

(** [binary_round_aux] on an exact positive mantissa [M] that has to lose
    [n >= 1] low bits, with the rounded mantissa spelled out: it is
    [rne M (2 ^ n)], renormalised when it reaches [2 ^ 24]. *)
Lemma binary_round_aux_rne (sx : bool) (M E : Z) :
  0 < M ->
  let n := fexp F32.prec F32.emax (Zdigits2 M + E) - E in
  0 < n -> n < Zdigits2 M -> E + n <= 103 ->
  exists (m' : positive) (e' : Z),
    binary_round_aux F32.prec F32.emax sx M E loc_Exact = S754_finite sx m' e'
    /\ ((Zpos m' = rne M (2 ^ n) /\ e' = E + n)
        \/ (rne M (2 ^ n) = 2 ^ 24 /\ Zpos m' = 2 ^ 23 /\ e' = E + n + 1)).
Proof.
  intros HM n Hn Hnd He.
  pose proof (Zdigits2_bounds M HM) as [Hdlo Hdhi].
  assert (Hn24 : Zdigits2 M - 24 <= n /\ -149 <= E + n).
  { subst n. unfold fexp, emin, F32.prec, F32.emax. lia. }
  unfold binary_round_aux, shr_fexp. cbn [shr_record_of_loc]. fold n.
  destruct n as [| np |] eqn:En; try lia.
  rewrite shr_exact by lia.
  set (k := Nat.pred (Pos.to_nat np)).
  assert (Hk : Z.of_nat (S k) = Zpos np) by (subst k; lia).
  pose proof (round_shifted M k ltac:(lia)) as HR. cbv zeta in HR.
  pose proof (round_shifted_rne M k ltac:(lia)) as HRne.
  rewrite Hk in HR, HRne.
  set (R := round_nearest_even _ _) in *.
  set (q := M / 2 ^ Zpos np) in *.
  assert (Hp : 0 < 2 ^ Zpos np) by pow2_pos.
  assert (Hq1 : 1 <= q).
  { apply Z.div_le_lower_bound; [assumption |].
    assert (2 ^ Zpos np <= 2 ^ (Zdigits2 M - 1)) by (apply Z.pow_le_mono_r; lia).
    lia. }
  assert (Hq24 : q < 2 ^ 24).
  { apply Z.div_lt_upper_bound; [assumption |].
    rewrite <- Z.pow_add_r by lia.
    assert (2 ^ Zdigits2 M <= 2 ^ (Zpos np + 24)) by (apply Z.pow_le_mono_r; lia).
    lia. }
  rewrite <- HRne.
  destruct (Z_lt_le_dec R (2 ^ 24)) as [Hlt | Hge].
  - pose proof (Zdigits2_le R 24 ltac:(lia) Hlt) as HdR.
    set (sh := fexp F32.prec F32.emax (Zdigits2 R + (E + Zpos np)) - (E + Zpos np)).
    assert (Hsh : sh <= 0).
    { subst sh. unfold fexp, emin, F32.prec, F32.emax. lia. }
    clearbody sh. clear HRne.
    destruct R as [| r |] eqn:ER; try lia.
    exists r, (E + Zpos np).
    replace (shr _ _ sh) with
      (Build_shr_record (Zpos r) false false, E + Zpos np)
      by (destruct sh; try lia; reflexivity).
    cbn [shr_m]. unfold F32.emax, F32.prec.
    destruct (Z.leb_spec (E + Zpos np) (128 - 24)); try lia.
    split; [reflexivity |]. left. split; reflexivity.
  - assert (ER : R = 2 ^ 24) by lia.
    exists (8388608%positive), (E + Zpos np + 1).
    clear HRne. clearbody R. subst R.
    replace (fexp F32.prec F32.emax (Zdigits2 (2 ^ 24) + (E + Zpos np)) - (E + Zpos np))
      with 1 by (unfold fexp, emin, F32.prec, F32.emax; cbn [Zdigits2]; change (Zdigits2 (2 ^ 24)) with 25; lia).
    rewrite shr_exact by lia.
    change (shr_m (shifted (2 ^ 24) (Nat.pred (Pos.to_nat 1)))) with (Zpos 8388608).
    cbv iota beta. unfold F32.emax, F32.prec.
    destruct (Z.leb_spec (E + Zpos np + 1) (128 - 24)); try lia.
    split; [reflexivity |]. right. repeat split; reflexivity.
Qed.

(** The integer part of the product with [32767.0f], spelled out. *)
Lemma mul_c32767_scaled (sx : bool) (m : positive) (e : Z) :
  bounded F32.prec F32.emax m e = true -> e <= -23 ->
  F32.trunc (F32.mul (S754_finite sx m e) F32.c32767)
  = Some (cond_Zopp sx (scaled_int m e)).
Proof.
  intros [Hfe Hemax]%bounded_inv He.
  pose proof (digits2_pos_bounds m) as [Hmlo Hmhi].
  set (dm := Zpos (digits2_pos m)) in *.
  assert (Hdm : 1 <= dm <= 24) by lia.
  unfold F32.mul, F32.c32767, scaled_int. cbn [SFmul]. rewrite xorb_false_r. cbv zeta.
  rewrite <- (Pos2Z.inj_mul m 16776704).
  set (M := Zpos (m * 16776704)).
  assert (EM : M = Zpos m * 16776704) by (subst M; apply Pos2Z.inj_mul).
  assert (HM : 0 < M) by (subst M; lia).
  assert (Hd1 : dm + 22 < Zdigits2 M).
  { apply Zdigits2_gt; [lia |].
    replace (dm + 22) with ((dm - 1) + 23) by lia.
    rewrite Z.pow_add_r by lia. change (2 ^ 23) with 8388608. nia. }
  assert (Hd2 : Zdigits2 M <= dm + 24).
  { apply Zdigits2_le; [assumption |].
    rewrite Z.pow_add_r by lia. change (2 ^ 24) with 16777216. nia. }
  replace (e - 9) with (e + -9) by lia.
  pose proof (binary_round_aux_rne sx M (e + -9) HM) as Hround.
  cbv zeta in Hround.
  set (n := fexp F32.prec F32.emax (Zdigits2 M + (e + -9)) - (e + -9)) in *.
  assert (Hn : n = Z.max (Zdigits2 M - 24) (-140 - e)).
  { subst n. unfold fexp, emin, F32.prec, F32.emax. lia. }
  destruct Hround as (m' & e' & Heq & Hnorm); try lia.
  rewrite Heq. cbn [F32.trunc].
  set (e1 := e + -9 + n) in *.
  assert (He1 : e1 <= -8) by lia.
  f_equal. f_equal.
  destruct Hnorm as [[-> ->] | (-> & -> & ->)].
  - apply Z.shiftl_div_pow2. lia.
  - rewrite Z.shiftl_div_pow2 by lia.
    replace (- e1) with (1 + (- (e1 + 1))) by lia.
    rewrite (Z.pow_add_r 2 1) by lia.
    change (2 ^ 24) with (2 ^ 1 * 2 ^ 23).
    rewrite Z.div_mul_cancel_l; [reflexivity | | lia].
    apply Z.pow_nonzero; lia.
Qed.

End Nearest.

Section Monotone.

Lemma rne_bounds (M P : Z) : M / P <= rne M P <= M / P + 1.
Proof.
  unfold rne. cbv zeta.
  destruct (2 * (M mod P) <? P); [lia |].
  destruct (2 * (M mod P) =? P); [| lia].
  destruct (Z.even (M / P)); lia.
Qed.

(** Rounding to nearest keeps the order of the quotients [M1 / P1] and
    [M2 / P2]. *)
Lemma rne_monotone (M1 P1 M2 P2 : Z) :
  0 < P1 -> 0 < P2 -> M1 * P2 <= M2 * P1 -> rne M1 P1 <= rne M2 P2.
Proof.
  intros HP1 HP2 Hle.
  pose proof (Z.div_mod M1 P1 ltac:(lia)) as Hdm1.
  pose proof (Z.div_mod M2 P2 ltac:(lia)) as Hdm2.
  pose proof (Z.mod_pos_bound M1 P1 HP1) as Hr1.
  pose proof (Z.mod_pos_bound M2 P2 HP2) as Hr2.
  pose proof (rne_bounds M1 P1) as Hb1. pose proof (rne_bounds M2 P2) as Hb2.
  revert Hb1 Hb2. unfold rne. cbv zeta.
  set (q1 := M1 / P1) in *. set (q2 := M2 / P2) in *.
  set (r1 := M1 mod P1) in *. set (r2 := M2 mod P2) in *.
  set (N := P1 * P2). set (a := r1 * P2). set (b := r2 * P1).
  assert (HN : 0 < N) by (subst N; nia).
  assert (Ha : 0 <= a < N) by (subst a N; nia).
  assert (Hb : 0 <= b < N) by (subst b N; nia).
  assert (Hord : N * q1 + a <= N * q2 + b) by (subst a b N; nia).
  assert (Hq : q1 <= q2) by nia.
  assert (Ha2 : 2 * a - N = (2 * r1 - P1) * P2) by (subst a N; ring).
  assert (Hb2 : 2 * b - N = (2 * r2 - P2) * P1) by (subst b N; ring).
  intros Hb1 Hb2'.
  destruct (Z.eq_dec q1 q2) as [Heq | Hne].
  - rewrite <- Heq in *. assert (Hab : a <= b) by nia.
    destruct (Z.ltb_spec (2 * r1) P1) as [H1 | H1];
      destruct (Z.ltb_spec (2 * r2) P2) as [H2 | H2]; try lia.
    + exfalso. nia.
    + destruct (Z.eqb_spec (2 * r1) P1) as [E1 | E1];
        destruct (Z.eqb_spec (2 * r2) P2) as [E2 | E2]; try lia;
        try (destruct (Z.even q1); lia); exfalso; nia.
  - assert (q1 + 1 <= q2) by lia. lia.
Qed.

(** The shape of the exact product of a float of magnitude at most one
    with [32767.0f]: its mantissa [M], the exponent [e'] of the rounded
    product and the number [n] of bits shifted out. *)
Lemma product_shape (m : positive) (e : Z) :
  bounded F32.prec F32.emax m e = true -> e <= -23 ->
  let M := Zpos m * 16776704 in
  let d := Zdigits2 M in
  let e' := fexp F32.prec F32.emax (d + (e - 9)) in
  let n := e' - (e - 9) in
  0 < M /\ 2 ^ (d - 1) <= M < 2 ^ d
  /\ e' = Z.max (d + (e - 9) - 24) (-149)
  /\ 0 < n < d /\ e' <= -8
  /\ M / 2 ^ n < 2 ^ 24
  /\ (-149 < e' -> 2 ^ 23 <= M / 2 ^ n).
Proof.
  intros [Hfe Hemax]%bounded_inv He M d e' n.
  pose proof (digits2_pos_bounds m) as [Hmlo Hmhi].
  set (dm := Zpos (digits2_pos m)) in *.
  assert (Hdm : 1 <= dm <= 24) by lia.
  assert (HM : 0 < M) by (subst M; lia).
  pose proof (Zdigits2_bounds M HM) as Hd. fold d in Hd.
  assert (Hd1 : dm + 22 < d).
  { subst d. apply Zdigits2_gt; [lia |].
    replace (dm + 22) with ((dm - 1) + 23) by lia.
    rewrite Z.pow_add_r by lia. change (2 ^ 23) with 8388608. subst M. nia. }
  assert (Hd2 : d <= dm + 24).
  { subst d. apply Zdigits2_le; [assumption |].
    rewrite Z.pow_add_r by lia. change (2 ^ 24) with 16777216. subst M. nia. }
  assert (He' : e' = Z.max (d + (e - 9) - 24) (-149)).
  { subst e'. unfold fexp, emin, F32.prec, F32.emax. lia. }
  assert (Hn : 0 < n < d) by (subst n; lia).
  assert (Hp : 0 < 2 ^ n) by pow2_pos.
  split; [exact HM |]. split; [exact Hd |]. split; [exact He' |].
  split; [exact Hn |]. split; [lia |]. split.
  - apply Z.div_lt_upper_bound; [assumption |].
    rewrite <- Z.pow_add_r by lia.
    assert (2 ^ d <= 2 ^ (n + 24)) by (apply Z.pow_le_mono_r; lia). lia.
  - intros Hnormal. apply Z.div_le_lower_bound; [assumption |].
    rewrite <- Z.pow_add_r by lia.
    replace (n + 23) with (d - 1) by lia. lia.
Qed.

(** The integer part of the product grows with the magnitude of the float:
    [m1 * 2 ^ e1 <= m2 * 2 ^ e2] gives [scaled_int m1 e1 <= scaled_int m2 e2]. *)
Lemma scaled_int_monotone (m1 m2 : positive) (e1 e2 : Z) :
  bounded F32.prec F32.emax m1 e1 = true -> e1 <= -23 ->
  bounded F32.prec F32.emax m2 e2 = true -> e2 <= -23 ->
  Zpos m1 * 2 ^ (- e2) <= Zpos m2 * 2 ^ (- e1) ->
  scaled_int m1 e1 <= scaled_int m2 e2.
Proof.
  intros Hb1 He1 Hb2 He2 Hle.
  pose proof (product_shape m1 e1 Hb1 He1) as S1.
  pose proof (product_shape m2 e2 Hb2 He2) as S2.
  unfold scaled_int. cbv zeta in *.
  set (M1 := Zpos m1 * 16776704) in *. set (M2 := Zpos m2 * 16776704) in *.
  set (d1 := Zdigits2 M1) in *. set (d2 := Zdigits2 M2) in *.
  set (f1 := fexp F32.prec F32.emax (d1 + (e1 - 9))) in *.
  set (f2 := fexp F32.prec F32.emax (d2 + (e2 - 9))) in *.
  destruct S1 as (HM1 & Hd1 & Hf1 & Hn1 & Hf1' & Hq1 & _).
  destruct S2 as (HM2 & Hd2 & Hf2 & Hn2 & Hf2' & _ & Hq2).
  set (n1 := f1 - (e1 - 9)) in *. set (n2 := f2 - (e2 - 9)) in *.
  replace (e1 - 9 + n1) with f1 by (subst n1; lia).
  replace (e2 - 9 + n2) with f2 by (subst n2; lia).
  (* the order of the exact products *)
  assert (HleM : M1 * 2 ^ (9 - e2) <= M2 * 2 ^ (9 - e1)).
  { replace (9 - e2) with (- e2 + 9) by lia. replace (9 - e1) with (- e1 + 9) by lia.
    rewrite !Z.pow_add_r by lia. subst M1 M2.
    assert (0 < 2 ^ 9) by pow2_pos. nia. }
  (* the weaker product cannot have more digits before the point *)
  assert (Hdd : d1 + e1 <= d2 + e2).
  { destruct (Z_le_gt_dec (d1 + e1) (d2 + e2)) as [| Hgt]; [assumption | exfalso].
    assert (H1 : 2 ^ (d1 - 1) * 2 ^ (9 - e2) <= M1 * 2 ^ (9 - e2))
      by (apply Z.mul_le_mono_nonneg_r; [apply Z.pow_nonneg |]; lia).
    assert (H2 : M2 * 2 ^ (9 - e1) < 2 ^ d2 * 2 ^ (9 - e1))
      by (apply Z.mul_lt_mono_pos_r; [pow2_pos | lia]).
    rewrite <- Z.pow_add_r in H1, H2 by lia.
    assert (2 ^ (d2 + (9 - e1)) <= 2 ^ (d1 - 1 + (9 - e2)))
      by (apply Z.pow_le_mono_r; lia).
    lia. }
  assert (Hff : f1 <= f2) by lia.
  assert (HP1 : 0 < 2 ^ n1) by pow2_pos. assert (HP2 : 0 < 2 ^ n2) by pow2_pos.
  destruct (Z.eq_dec f1 f2) as [Heq | Hne].
  - (* the same exponent after rounding *)
    rewrite <- Heq. apply Z.div_le_mono; [pow2_pos |].
    apply rne_monotone; [assumption | assumption |].
    apply (Z.mul_le_mono_pos_r _ _ (2 ^ (- f1))); [pow2_pos |].
    rewrite <- !Z.mul_assoc, <- !Z.pow_add_r by lia.
    replace (n2 + - f1) with (9 - e2) by (subst n2; lia).
    replace (n1 + - f1) with (9 - e1) by (subst n1; lia).
    exact HleM.
  - (* a smaller exponent: a power of two lies between the two products *)
    pose proof (rne_bounds M1 (2 ^ n1)) as HR1.
    pose proof (rne_bounds M2 (2 ^ n2)) as HR2.
    specialize (Hq2 ltac:(lia)).
    apply Z.le_trans with (2 ^ 24 / 2 ^ (- f1)).
    { apply Z.div_le_mono; [pow2_pos | lia]. }
    apply Z.le_trans with (2 ^ 23 / 2 ^ (- f2)).
    2: { apply Z.div_le_mono; [pow2_pos | lia]. }
    apply Z.le_trans with (2 ^ 24 / 2 ^ (1 + - f2)).
    { apply Z.div_le_compat_l; [lia |]. split; [pow2_pos |].
      apply Z.pow_le_mono_r; lia. }
    rewrite (Z.pow_add_r 2 1) by lia. change (2 ^ 24) with (2 ^ 1 * 2 ^ 23).
    rewrite Z.div_mul_cancel_l; [lia | | lia].
    apply Z.pow_nonzero; lia.
Qed.

End Monotone.

Section Order.

Lemma below_one_spec (m : positive) (e : Z) :
  below_one m e = true <-> e < -23 \/ (e = -23 /\ Zpos m < 8388608).
Proof.
  unfold below_one. rewrite (Pos2Z.inj_compare m 8388608).
  destruct (Z.compare_spec e (-23)) as [-> | Hlt | Hgt].
  - destruct (Z.compare_spec (Zpos m) 8388608); split; intros Hx;
      try reflexivity; try discriminate; lia.
  - split; [left; assumption | reflexivity].
  - split; [discriminate | lia].
Qed.

(** The integer stored for a finite float: the sign of the float on the
    magnitude [magnitude_int]. *)
Lemma sample_to_int16_finite (sx : bool) (m : positive) (e : Z) :
  F32.valid (S754_finite sx m e) = true ->
  sample_to_int16 (S754_finite sx m e) = Some (cond_Zopp sx (magnitude_int m e))
  /\ 0 <= magnitude_int m e <= 32767.
Proof.
  intros Hvalid. unfold sample_to_int16, magnitude_int. rewrite clamp_finite.
  destruct (below_one m e) eqn:Hb.
  - destruct (below_one_magnitude m e Hvalid Hb) as [He Hm].
    pose proof (mul_c32767_scaled sx m e Hvalid He) as Hs.
    destruct (mul_c32767_trunc sx m e Hvalid He) as (t & Ht & HK).
    assert (HW : 0 < 2 ^ (- e)) by pow2_pos.
    destruct (HK 32767) as [Hup _]. destruct (HK 0) as [_ Hlow].
    assert (Ht0 : 0 <= t <= 32767) by (split; [apply Hlow | apply Hup]; lia).
    assert (t = scaled_int m e) as ->.
    { rewrite Hs in Ht. injection Ht as Ht. destruct sx; cbn [cond_Zopp] in Ht; lia. }
    split; [| exact Ht0].
    apply of_float_in_range; [exact Hs | destruct sx; cbn [cond_Zopp]; lia].
  - split; [destruct sx; reflexivity | lia].
Qed.

(** The magnitude stored grows with the magnitude of the float, in the
    order [SFcompare] uses: by exponent, then by mantissa. *)
Lemma magnitude_int_monotone (m1 m2 : positive) (e1 e2 : Z) :
  bounded F32.prec F32.emax m1 e1 = true ->
  bounded F32.prec F32.emax m2 e2 = true ->
  e1 < e2 \/ (e1 = e2 /\ Zpos m1 <= Zpos m2) ->
  magnitude_int m1 e1 <= magnitude_int m2 e2.
Proof.
  intros Hb1 Hb2 Hle.
  destruct (sample_to_int16_finite false m1 e1 Hb1) as [_ Hr1].
  destruct (sample_to_int16_finite false m2 e2 Hb2) as [_ Hr2].
  revert Hr1 Hr2. unfold magnitude_int.
  destruct (below_one m1 e1) eqn:B1; destruct (below_one m2 e2) eqn:B2; intros Hr1 Hr2.
  - destruct (below_one_magnitude m1 e1 Hb1 B1) as [He1 _].
    destruct (below_one_magnitude m2 e2 Hb2 B2) as [He2 _].
    apply scaled_int_monotone; try assumption.
    destruct Hle as [Hlt | [-> Hm]].
    + destruct (bounded_inv m1 e1 Hb1) as [Hf1 _].
      destruct (bounded_inv m2 e2 Hb2) as [Hf2 _].
      pose proof (digits2_pos_bounds m1) as [_ Hhi1].
      pose proof (digits2_pos_bounds m2) as [Hlo2 _].
      assert (Hd2 : Zpos (digits2_pos m2) = 24) by lia. rewrite Hd2 in Hlo2.
      assert (Hm1 : Zpos m1 < 2 ^ 24).
      { assert (2 ^ Zpos (digits2_pos m1) <= 2 ^ 24) by (apply Z.pow_le_mono_r; lia). lia. }
      apply Z.le_trans with (2 ^ 24 * 2 ^ (- e2)).
      { apply Z.mul_le_mono_nonneg_r; [apply Z.pow_nonneg |]; lia. }
      apply Z.le_trans with (2 ^ (24 - 1) * 2 ^ (- e1)).
      2: { apply Z.mul_le_mono_nonneg_r; [apply Z.pow_nonneg |]; lia. }
      rewrite <- !Z.pow_add_r by lia. apply Z.pow_le_mono_r; lia.
    + apply Z.mul_le_mono_nonneg_r; [apply Z.pow_nonneg |]; lia.
  - lia.
  - apply below_one_spec in B2.
    assert (B1' : ~ (e1 < -23 \/ (e1 = -23 /\ Zpos m1 < 8388608)))
      by (rewrite <- below_one_spec, B1; discriminate).
    lia.
  - lia.
Qed.

Lemma le_finite_cases (s1 s2 : bool) (m1 m2 : positive) (e1 e2 : Z) :
  F32.le (S754_finite s1 m1 e1) (S754_finite s2 m2 e2) = true ->
  (s1 = true /\ s2 = false)
  \/ (s1 = false /\ s2 = false /\ (e1 < e2 \/ (e1 = e2 /\ Zpos m1 <= Zpos m2)))
  \/ (s1 = true /\ s2 = true /\ (e2 < e1 \/ (e2 = e1 /\ Zpos m2 <= Zpos m1))).
Proof.
  unfold F32.le, SFleb. cbn [SFcompare].
  rewrite Pos.compare_cont_spec. cbn [Pos.switch_Eq].
  rewrite (Pos2Z.inj_compare m1 m2).
  destruct s1, s2.
  - destruct (Z.compare_spec e1 e2) as [-> | |];
      destruct (Z.compare_spec (Zpos m1) (Zpos m2)); cbn [CompOpp];
      try discriminate; intros _; right; right; repeat split; lia.
  - intros _. left. split; reflexivity.
  - discriminate.
  - destruct (Z.compare_spec e1 e2) as [-> | |];
      destruct (Z.compare_spec (Zpos m1) (Zpos m2));
      try discriminate; intros _; right; left; repeat split; lia.
Qed.

Lemma sample_to_int16_zero (sx : bool) : sample_to_int16 (S754_zero sx) = Some 0.
Proof. destruct sx; reflexivity. Qed.

Lemma sample_to_int16_infinity (sx : bool) :
  sample_to_int16 (S754_infinity sx) = Some (if sx then -32767 else 32767).
Proof. destruct sx; reflexivity. Qed.

End Order.

(** X12: encoding keeps the order of the samples: for valid floats
    [s1 <= s2] (neither a NaN, so that they compare) the integer stored for
    [s1] is at most the one stored for [s2]. *)
Theorem encode_monotone (s1 s2 : spec_float) :
  F32.valid s1 = true -> F32.valid s2 = true ->
  F32.le s1 s2 = true ->
  exists v1 v2,
    sample_to_int16 s1 = Some v1 /\ sample_to_int16 s2 = Some v2 /\ v1 <= v2.
Proof.
  intros Hv1 Hv2 Hle.
  destruct (sample_to_int16_valid s1 Hv1) as (v1 & Hs1 & Hr1).
  destruct (sample_to_int16_valid s2 Hv2) as (v2 & Hs2 & Hr2).
  exists v1, v2. split; [exact Hs1 |]. split; [exact Hs2 |].
  destruct s1 as [x1 | x1 | | x1 m1 e1]; destruct s2 as [x2 | x2 | | x2 m2 e2];
    try discriminate.
  - rewrite sample_to_int16_zero in Hs1, Hs2.
    injection Hs1 as <-. injection Hs2 as <-. lia.
  - destruct x2; [discriminate |].
    rewrite sample_to_int16_infinity in Hs2. injection Hs2 as <-. lia.
  - destruct (sample_to_int16_finite x2 m2 e2 Hv2) as [Hf2 Hm2].
    destruct x2; [discriminate |].
    rewrite sample_to_int16_zero in Hs1. rewrite Hf2 in Hs2.
    injection Hs1 as <-. injection Hs2 as <-. cbn [cond_Zopp]. lia.
  - destruct x1; [| discriminate].
    rewrite sample_to_int16_infinity in Hs1. injection Hs1 as <-. lia.
  - destruct x1; [rewrite sample_to_int16_infinity in Hs1; injection Hs1 as <-; lia |].
    destruct x2; [discriminate |].
    rewrite sample_to_int16_infinity in Hs2. injection Hs2 as <-. lia.
  - destruct x1; [| discriminate].
    rewrite sample_to_int16_infinity in Hs1. injection Hs1 as <-. lia.
  - destruct (sample_to_int16_finite x1 m1 e1 Hv1) as [Hf1 Hm1].
    destruct x1; [| discriminate].
    rewrite sample_to_int16_zero in Hs2. rewrite Hf1 in Hs1.
    injection Hs1 as <-. injection Hs2 as <-. cbn [cond_Zopp]. lia.
  - destruct x2; [destruct x1; discriminate |].
    rewrite sample_to_int16_infinity in Hs2. injection Hs2 as <-. lia.
  - destruct (sample_to_int16_finite x1 m1 e1 Hv1) as [Hf1 Hm1].
    destruct (sample_to_int16_finite x2 m2 e2 Hv2) as [Hf2 Hm2].
    rewrite Hf1 in Hs1. rewrite Hf2 in Hs2.
    injection Hs1 as <-. injection Hs2 as <-.
    destruct (le_finite_cases _ _ _ _ _ _ Hle)
      as [[-> ->] | [(-> & -> & Hlex) | (-> & -> & Hlex)]]; cbn [cond_Zopp].
    + lia.
    + apply magnitude_int_monotone; assumption.
    + pose proof (magnitude_int_monotone m2 m1 e2 e1 Hv2 Hv1 Hlex). lia.
Qed.

Lemma encode_monotone_witness :
  F32.valid above_half = true /\ F32.valid near_one = true
  /\ F32.le above_half near_one = true
  /\ exists v1 v2,
       sample_to_int16 above_half = Some v1 /\ sample_to_int16 near_one = Some v2
       /\ v1 <= v2.
Proof.
  split; [reflexivity |]. split; [reflexivity |]. split; [reflexivity |].
  apply (encode_monotone above_half near_one); reflexivity.
Defined.

(** X13: full scale is reached at the ends of the range only: a valid float
    below [1.0] is stored as 32766 at most, and a valid float above [-1.0]
    as -32766 at least. *)
Theorem full_scale_only_at_the_ends (s : spec_float) :
  F32.valid s = true ->
  exists v,
    sample_to_int16 s = Some v
    /\ (F32.lt s F32.one = true -> v <= 32766)
    /\ (F32.lt F32.minus_one s = true -> -32766 <= v).
Proof.
  intros Hvalid.
  destruct (sample_to_int16_valid s Hvalid) as (v & Hs & Hr).
  exists v. split; [exact Hs |].
  assert (Hfull : magnitude_int 16777215 (-24) = 32766) by (vm_compute; reflexivity).
  destruct s as [sx | sx | | sx m e].
  - rewrite sample_to_int16_zero in Hs. injection Hs as <-. split; intros; lia.
  - rewrite sample_to_int16_infinity in Hs. injection Hs as <-.
    destruct sx; (split; intros Hlt); try discriminate; lia.
  - split; discriminate.
  - destruct (sample_to_int16_finite sx m e Hvalid) as [Hf Hm].
    rewrite Hf in Hs. injection Hs as <-.
    assert (Hbelow : below_one m e = true -> magnitude_int m e <= 32766).
    { intros Hb. rewrite <- Hfull.
      apply magnitude_int_monotone; [exact Hvalid | reflexivity |].
      apply below_one_spec in Hb.
      destruct (bounded_inv m e Hvalid) as [Hfe _].
      pose proof (digits2_pos_bounds m) as [Hlo Hhi].
      assert (2 ^ Zpos (digits2_pos m) <= 2 ^ 24) by (apply Z.pow_le_mono_r; lia).
      destruct Hb as [Hlt | [-> Hm23]]; [lia | exfalso].
      assert (Hd : Zpos (digits2_pos m) = 24) by lia.
      rewrite Hd in Hlo. change (2 ^ (24 - 1)) with 8388608 in Hlo. lia. }
    assert (Hcmp : F32.lt (S754_finite false m e) F32.one = below_one m e
                   /\ F32.lt F32.minus_one (S754_finite true m e) = below_one m e).
    { unfold F32.lt, SFltb, below_one, F32.one, F32.minus_one. cbn [SFcompare].
      rewrite (Z.compare_antisym e (-23)), !Pos.compare_cont_spec.
      cbn [Pos.switch_Eq]. rewrite (Pos.compare_antisym m 8388608).
      destruct (e ?= -23); cbn [CompOpp]; try (split; reflexivity).
      destruct (m ?= 8388608)%positive; split; reflexivity. }
    destruct Hcmp as [Hc1 Hc2].
    destruct sx; cbn [cond_Zopp]; split; intros Hlt; try lia.
    + rewrite Hc2 in Hlt. specialize (Hbelow Hlt). lia.
    + rewrite Hc1 in Hlt. specialize (Hbelow Hlt). lia.
Qed.

Lemma full_scale_only_at_the_ends_witness :
  F32.valid below_full_scale = true
  /\ exists v,
       sample_to_int16 below_full_scale = Some v
       /\ (F32.lt below_full_scale F32.one = true -> v <= 32766)
       /\ (F32.lt F32.minus_one below_full_scale = true -> -32766 <= v).
Proof.
  split; [reflexivity |].
  apply (full_scale_only_at_the_ends below_full_scale). reflexivity.
Defined.

Section Shrink.

(** Rounding to nearest goes up by half a unit at most. *)
Lemma rne_half (M P : Z) : 0 < P -> 2 * (rne M P * P) <= 2 * M + P.
Proof.
  intros HP.
  pose proof (Z.div_mod M P ltac:(lia)) as Hdm.
  pose proof (Z.mod_pos_bound M P HP) as Hr.
  unfold rne. cbv zeta.
  set (q := M / P) in *. set (r := M mod P) in *.
  destruct (Z.ltb_spec (2 * r) P); [nia |].
  destruct (Z.eqb_spec (2 * r) P); [destruct (Z.even q) |]; nia.
Qed.

(** Scaled back by [32768], the integer stored for a float of magnitude at
    most one is not above that magnitude. *)
Lemma scaled_int_shrinks (m : positive) (e : Z) :
  bounded F32.prec F32.emax m e = true -> e <= -23 ->
  scaled_int m e * 2 ^ (- e) <= 32768 * Zpos m.
Proof.
  intros Hb He.
  pose proof (product_shape m e Hb He) as S.
  destruct (bounded_inv m e Hb) as [Hfe _].
  unfold scaled_int. cbv zeta in *.
  set (M := Zpos m * 16776704) in *. set (d := Zdigits2 M) in *.
  set (f := fexp F32.prec F32.emax (d + (e - 9))) in *.
  destruct S as (HM & Hd & Hf & Hn & Hf' & _ & _).
  set (n := f - (e - 9)) in *.
  replace (e - 9 + n) with f by (subst n; lia).
  set (R := rne M (2 ^ n)).
  assert (HP : 0 < 2 ^ n) by pow2_pos. assert (HQ : 0 < 2 ^ (- f)) by pow2_pos.
  assert (HW : 0 < 2 ^ (- e)) by pow2_pos.
  pose proof (rne_half M (2 ^ n) HP) as Hhalf. fold R in Hhalf.
  pose proof (Z.mul_div_le R (2 ^ (- f)) HQ) as Hfloor.
  assert (Hpq : 2 ^ n * 2 ^ (- f) = 512 * 2 ^ (- e)).
  { rewrite <- Z.pow_add_r by lia. change 512 with (2 ^ 9).
    rewrite <- Z.pow_add_r by lia. f_equal. subst n. lia. }
  (* the half unit is at most [512 * m] *)
  assert (Hunit : 2 ^ n <= 1024 * Zpos m).
  { destruct (Z.max_spec (d + (e - 9) - 24) (-149)) as [[_ Hmax] | [_ Hmax]].
    - assert (n <= 9) by (subst n; lia).
      assert (2 ^ n <= 2 ^ 9) by (apply Z.pow_le_mono_r; lia).
      change (2 ^ 9) with 512 in *. lia.
    - assert (Hn' : d - 1 = (n - 1) + 24) by (subst n; lia).
      destruct Hd as [Hdlo _]. rewrite Hn', Z.pow_add_r in Hdlo by lia.
      change (2 ^ 24) with 16777216 in Hdlo.
      replace n with ((n - 1) + 1) by lia. rewrite Z.pow_add_r by lia.
      change (2 ^ 1) with 2. subst M. nia. }
  set (t := R / 2 ^ (- f)) in *.
  assert (H1 : 2 * (t * (2 ^ n * 2 ^ (- f))) <= 2 * M + 2 ^ n) by nia.
  rewrite Hpq in H1. subst M. nia.
Qed.

End Shrink.

(** X14: the round trip never amplifies and never changes the sign of the
    value: for a valid float [s] of [[-1.0, 1.0]] the value [q] of
    [decode(encode([s]))[0]] has a magnitude that is at most that of [s],
    is not negative when [s] is not, and is not positive when [s] is not.
    The sign bit is not kept, though: whenever [q] is zero the float that
    comes back is [+0.0], as it is for [-0.0] and for [-2^-20]. *)
Theorem round_trip_never_amplifies :
  (forall s : spec_float,
     F32.valid s = true ->
     F32.le F32.minus_one s = true ->
     F32.le s F32.one = true ->
     exists r q qs,
       round_trip s = Some r
       /\ F32.to_Q r = Some q
       /\ F32.to_Q s = Some qs
       /\ (Qabs q <= Qabs qs)%Q
       /\ ((0 <= qs)%Q -> (0 <= q)%Q)
       /\ ((qs <= 0)%Q -> (q <= 0)%Q)
       /\ ((q == 0)%Q -> r = S754_zero false))
  /\ round_trip (S754_zero true) = Some (S754_zero false)
  /\ (F32.valid tiny_negative = true
      /\ has_value tiny_negative (-1 # 1048576)
      /\ round_trip tiny_negative = Some (S754_zero false)).
Proof.
  split; [| split; [reflexivity |]].
  2:{ split; [reflexivity |]. split; [| reflexivity].
      eexists. split; [reflexivity | vm_compute; reflexivity]. }
  intros s Hvalid Hlo Hhi.
  destruct s as [sx | sx | | sx m e].
  - exists (S754_zero false), (0 # 1)%Q, (0 # 1)%Q.
    split; [destruct sx; reflexivity |].
    repeat (split; [reflexivity |]).
    split; [discriminate |]. split; [intros _; discriminate |].
    split; [intros _; discriminate | reflexivity].
  - destruct sx; discriminate.
  - discriminate.
  - destruct (in_range_finite sx m e Hvalid Hlo Hhi) as (Hclamp & Hb & He & Hm).
    destruct (sample_to_int16_finite sx m e Hvalid) as [Hs Hmag].
    assert (HW : 0 < 2 ^ (- e)) by pow2_pos.
    assert (Hshrink : magnitude_int m e * 2 ^ (- e) <= 32768 * Zpos m).
    { unfold magnitude_int in *. destruct (below_one m e) eqn:Hbelow.
      - apply scaled_int_shrinks; assumption.
      - assert (Hnb : ~ (e < -23 \/ (e = -23 /\ Zpos m < 8388608)))
          by (rewrite <- below_one_spec, Hbelow; discriminate).
        assert (e = -23) as -> by lia.
        change (2 ^ (- -23)) with 8388608 in *. lia. }
    set (v := cond_Zopp sx (magnitude_int m e)) in *.
    assert (Hv : -32768 <= v <= 32767) by (subst v; destruct sx; cbn [cond_Zopp]; lia).
    destruct (normalise_exact v Hv) as (_ & q & Hq & Hqv).
    pose proof (round_trip_value _ _ Hs) as Hrt.
    unfold int16_to_sample in Hrt. rewrite store_load in Hrt by assumption.
    exists (F32.div (F32.of_int v) F32.c32768), q,
      (Qmake (cond_Zopp sx (Zpos m)) (Z.to_pos (2 ^ (- e)))).
    split; [exact Hrt |]. split; [exact Hq |].
    split; [cbn [F32.to_Q]; destruct (Z.leb_spec 0 e); [lia | reflexivity] |].
    assert (Hzero : (q == 0)%Q -> F32.div (F32.of_int v) F32.c32768 = S754_zero false).
    { intros Hq0. rewrite Hqv in Hq0. unfold Qeq in Hq0. cbn [Qnum Qden] in Hq0.
      assert (v = 0) as -> by lia. reflexivity. }
    split; [| split; [| split; [| exact Hzero]]];
      rewrite Hqv; unfold Qle, Qabs; cbn [Qnum Qden];
      rewrite !Z2Pos.id by assumption;
      subst v; destruct sx; cbn [cond_Zopp] in *; intros; lia.
Qed.

Lemma round_trip_never_amplifies_witness :
  F32.valid near_one = true
  /\ F32.le F32.minus_one near_one = true
  /\ F32.le near_one F32.one = true
  /\ exists r q qs,
       round_trip near_one = Some r
       /\ F32.to_Q r = Some q
       /\ F32.to_Q near_one = Some qs
       /\ (Qabs q <= Qabs qs)%Q
       /\ ((0 <= qs)%Q -> (0 <= q)%Q)
       /\ ((qs <= 0)%Q -> (q <= 0)%Q)
       /\ ((q == 0)%Q -> r = S754_zero false).
Proof.
  split; [reflexivity |]. split; [reflexivity |]. split; [reflexivity |].
  apply (proj1 round_trip_never_amplifies near_one); reflexivity.
Defined.

(** * The integer stored and the exact product *)

Section Product.

(** Rounding to nearest goes down by half a unit at most. *)
Lemma rne_half_low (M P : Z) : 0 < P -> 2 * M <= 2 * (rne M P * P) + P.
Proof.
  intros HP.
  pose proof (Z.div_mod M P ltac:(lia)) as Hdm.
  pose proof (Z.mod_pos_bound M P HP) as Hr.
  unfold rne. cbv zeta.
  set (q := M / P) in *. set (r := M mod P) in *.
  destruct (Z.ltb_spec (2 * r) P); [nia |].
  destruct (Z.eqb_spec (2 * r) P); [destruct (Z.even q) |]; nia.
Qed.

(** The binary32 product of a float [m * 2 ^ e] of magnitude at most one
    with [32767.0f] is [m' * 2 ^ e'] with the sign of the float; cleared
    of denominators, its distance to the exact product is at most
    [2^-24] of the exact product, or at most [2^-150]. *)
Lemma mul_c32767_value (sx : bool) (m : positive) (e : Z) :
  bounded F32.prec F32.emax m e = true -> e <= -23 ->
  exists (m' : positive) (e' : Z),
    F32.mul (S754_finite sx m e) F32.c32767 = S754_finite sx m' e'
    /\ e' < 0
    /\ (Z.abs (Zpos m' * 2 ^ (- e) - 32767 * Zpos m * 2 ^ (- e')) * 16777216
          <= 32767 * Zpos m * 2 ^ (- e')
        \/ Z.abs (Zpos m' * 2 ^ (- e) - 32767 * Zpos m * 2 ^ (- e')) * 2 ^ 150
          <= 2 ^ (- e') * 2 ^ (- e)).
Proof.
  intros Hb He.
  pose proof (product_shape m e Hb He) as S. cbv zeta in S.
  destruct S as (HM & Hd & Hf & Hn & Hf' & _ & _).
  unfold F32.mul, F32.c32767. cbn [SFmul]. rewrite xorb_false_r.
  rewrite (Pos2Z.inj_mul m 16776704).
  replace (e + -9) with (e - 9) by lia.
  set (M := Zpos m * 16776704) in *. set (d := Zdigits2 M) in *.
  pose proof (binary_round_aux_rne sx M (e - 9) HM) as Hround.
  cbv zeta in Hround. fold d in Hround.
  set (f := fexp F32.prec F32.emax (d + (e - 9))) in *.
  set (n := f - (e - 9)) in *.
  destruct Hround as (m' & e' & Heq & Hnorm); try lia.
  replace (e - 9 + n) with f in Hnorm by (subst n; lia).
  rewrite Heq. exists m', e'. split; [reflexivity |].
  set (R := rne M (2 ^ n)) in *.
  assert (HP : 0 < 2 ^ n) by pow2_pos.
  assert (HQ : 0 < 2 ^ (- f)) by pow2_pos.
  assert (HW : 0 < 2 ^ (- e)) by pow2_pos.
  pose proof (rne_half M (2 ^ n) HP) as Hup. fold R in Hup.
  pose proof (rne_half_low M (2 ^ n) HP) as Hlow. fold R in Hlow.
  assert (Hpq : 2 ^ n * 2 ^ (- f) = 512 * 2 ^ (- e)).
  { rewrite <- Z.pow_add_r by lia. change 512 with (2 ^ 9).
    rewrite <- Z.pow_add_r by lia. f_equal. subst n. lia. }
  (* the rounded mantissa and its exponent, before renormalisation *)
  assert (Hc : exists c, 0 < c /\ c * Zpos m' = R /\ c * 2 ^ (- e') = 2 ^ (- f) /\ e' < 0).
  { destruct Hnorm as [[H1 ->] | (H1 & H2 & ->)].
    - exists 1. repeat split; lia.
    - exists 2. split; [lia |]. split; [rewrite H1, H2; reflexivity |].
      split; [| lia].
      replace (- f) with (1 + - (f + 1)) by lia.
      rewrite Z.pow_add_r by lia. reflexivity. }
  destruct Hc as (c & Hc0 & HcR & HcQ & He').
  split; [exact He' |].
  assert (HQ' : 0 < 2 ^ (- e')) by pow2_pos.
  set (W := 2 ^ (- e)) in *. set (Q2 := 2 ^ (- f)) in *. set (Q2' := 2 ^ (- e')) in *.
  set (P := 2 ^ n) in *.
  set (X := Zpos m' * W - 32767 * Zpos m * Q2').
  assert (HX : 512 * c * X = (R * P - M) * Q2).
  { subst X. rewrite <- HcR.
    transitivity (c * Zpos m' * (512 * W) - M * (c * Q2')); [subst M; ring |].
    rewrite <- Hpq, HcQ. ring. }
  assert (HD : 2 * Z.abs (R * P - M) <= P) by lia.
  assert (Habs : 512 * c * Z.abs X = Z.abs (R * P - M) * Q2).
  { pose proof (f_equal Z.abs HX) as Habs. rewrite !Z.abs_mul in Habs.
    rewrite (Z.abs_eq 512), (Z.abs_eq c), (Z.abs_eq Q2) in Habs by lia.
    exact Habs. }
  destruct (Z.max_spec (d + (e - 9) - 24) (-149)) as [[_ Hmax] | [_ Hmax]].
  - (* subnormal product *)
    right. assert (Ef : f = -149) by lia.
    assert (EQ : Q2 = 2 ^ 149) by (subst Q2; rewrite Ef; reflexivity).
    change (2 ^ 150) with (2 * 2 ^ 149). rewrite <- EQ.
    apply (Z.mul_le_mono_pos_l _ _ (512 * c)); [lia |].
    replace (512 * c * (Z.abs X * (2 * Q2)))
      with (2 * (512 * c * Z.abs X) * Q2) by ring.
    rewrite Habs.
    transitivity (P * Q2 * Q2).
    + apply Z.mul_le_mono_nonneg_r; [lia |].
      replace (2 * (Z.abs (R * P - M) * Q2)) with (2 * Z.abs (R * P - M) * Q2) by ring.
      apply Z.mul_le_mono_nonneg_r; lia.
    + rewrite Hpq, <- HcQ. apply Z.eq_le_incl. ring.
  - (* normal product *)
    left.
    assert (HPM : P * 8388608 <= M).
    { destruct Hd as [Hdlo _]. subst P.
      change 8388608 with (2 ^ 23). rewrite <- Z.pow_add_r by lia.
      replace (n + 23) with (d - 1) by (subst n; lia). exact Hdlo. }
    apply (Z.mul_le_mono_pos_l _ _ (512 * c)); [lia |].
    replace (512 * c * (Z.abs X * 16777216))
      with (512 * c * Z.abs X * 16777216) by ring.
    rewrite Habs.
    transitivity (M * Q2).
    + replace (Z.abs (R * P - M) * Q2 * 16777216)
        with (Z.abs (R * P - M) * 16777216 * Q2) by ring.
      apply Z.mul_le_mono_nonneg_r; lia.
    + rewrite <- HcQ. subst M. apply Z.eq_le_incl. ring.
Qed.

End Product.

Section Stored.

(** The integer stored for a valid sample stands to the exact product as
    [stored_for] says. *)
Lemma stored_for_sample (s : spec_float) (v : Z) :
  F32.valid s = true -> sample_to_int16 s = Some v -> stored_for (clamp s) v.
Proof.
  intros Hvalid Hv. unfold sample_to_int16 in Hv.
  destruct (of_float_trunc _ _ Hv) as [Htrunc _].
  destruct (clamp_cases s Hvalid) as [[sx Hz] | (sx & m & e & Hc & Hb & He & Hm)].
  - rewrite Hz in *. exists (0 # 1)%Q, (0 # 1)%Q.
    assert (v = 0) as -> by (destruct sx; cbn in Htrunc; congruence).
    split; [reflexivity |]. split; [destruct sx; reflexivity |].
    split; [right; vm_compute; discriminate |].
    split; [reflexivity |]. split; [vm_compute; reflexivity |].
    split; [| left; reflexivity].
    intros K HK. unfold Qeq in HK. cbn in HK. lia.
  - rewrite Hc in *.
    destruct (mul_c32767_value sx m e Hb He) as (m' & e' & Heq & He' & Hround).
    destruct (mul_c32767_trunc sx m e Hb He) as (t & Ht & HK).
    assert (v = cond_Zopp sx t) as -> by congruence.
    assert (HW : 0 < 2 ^ (- e)) by pow2_pos.
    assert (HQ : 0 < 2 ^ (- e')) by pow2_pos.
    pose proof (quantisation_int (Zpos m) (2 ^ (- e)) t ltac:(lia) HW HK) as Hint.
    assert (Hqp : F32.to_Q (F32.mul (S754_finite sx m e) F32.c32767)
                  = Some (Qmake (cond_Zopp sx (Zpos m')) (Z.to_pos (2 ^ (- e'))))).
    { rewrite Heq. cbn [F32.to_Q]. destruct (Z.leb_spec 0 e'); [lia | reflexivity]. }
    exists (Qmake (cond_Zopp sx (Zpos m)) (Z.to_pos (2 ^ (- e)))),
           (Qmake (cond_Zopp sx (Zpos m')) (Z.to_pos (2 ^ (- e')))).
    split.
    { cbn [F32.to_Q]. destruct (Z.leb_spec 0 e); [lia | reflexivity]. }
    split; [exact Hqp |].
    split.
    { unfold Qle, Qabs, Qminus, Qplus, Qopp, Qmult. cbn [Qnum Qden].
      rewrite !Pos2Z.inj_mul, !Z2Pos.id by assumption.
      set (W := 2 ^ (- e)) in *. set (Q' := 2 ^ (- e')) in *.
      assert (Hnum : Z.abs (cond_Zopp sx (Zpos m') * (1 * W)
                            + - (32767 * cond_Zopp sx (Zpos m)) * Q')
                     = Z.abs (Zpos m' * W - 32767 * Zpos m * Q'))
        by (destruct sx; cbn [cond_Zopp]; lia).
      assert (Hden : Z.abs (32767 * cond_Zopp sx (Zpos m)) = 32767 * Zpos m)
        by (destruct sx; cbn [cond_Zopp]; lia).
      rewrite Hnum, Hden, Pos2Z.inj_pow.
      destruct Hround as [H | H]; [left | right; lia].
      apply (Z.mul_le_mono_nonneg_r _ _ W) in H; lia. }
    split.
    { rewrite (trunc_quot _ _ Hqp) in Ht. congruence. }
    split.
    { apply Qabs_Qlt_condition.
      unfold Qlt, Qminus, Qplus, Qopp, Qmult, inject_Z. cbn [Qnum Qden].
      rewrite !Pos2Z.inj_mul, !Z2Pos.id by assumption.
      destruct sx; cbn [cond_Zopp]; lia. }
    split.
    { intros K HKeq. revert HKeq.
      unfold Qeq, Qmult, inject_Z. cbn [Qnum Qden].
      rewrite ?Pos2Z.inj_mul, !Z2Pos.id by assumption. intros HKeq.
      destruct sx; cbn [cond_Zopp] in *.
      + destruct (HK (- K)) as [H1 H2]. lia.
      + destruct (HK K) as [H1 H2]. lia. }
    unfold Qmult. cbn [Qnum Qden].
    rewrite Pos2Z.inj_mul, Z2Pos.id, Z.mul_1_l by assumption.
    set (W := 2 ^ (- e)) in *.
    pose proof (Z.mul_div_le (32767 * Zpos m) W HW) as Hfloor.
    pose proof (Z.mul_succ_div_gt (32767 * Zpos m) W HW) as Hceil.
    assert (Hq : Z.quot (32767 * Zpos m) W = 32767 * Zpos m / W)
      by (apply Z.quot_div_nonneg; lia).
    set (K1 := 32767 * Zpos m / W) in *.
    destruct (HK K1) as [_ Hlo]. destruct (HK (K1 + 1)) as [Hhi _].
    assert (Ht1 : K1 <= t <= K1 + 1) by lia.
    destruct sx; cbn [cond_Zopp].
    + replace (32767 * - Zpos m) with (- (32767 * Zpos m)) by ring.
      rewrite Z.quot_opp_l, Hq by lia.
      change (Z.sgn (- Zpos m)) with (-1). lia.
    + rewrite Hq. change (Z.sgn (Zpos m)) with 1. lia.
Qed.

End Stored.

(** C2, as the specification states it, fails when [c * 32767.0] is read as
    the exact product.  The float [0x3f7fbfff], about [0.99902], is inside
    the range, so [c] is the sample itself; the exact product lies strictly
    between [32734] and [32735] and truncates to [32734], bytes
    [0xDE, 0x7F]; but the binary32 product is [32735.0], and encoding
    stores [32735], bytes [0xDF, 0x7F]. *)
Lemma encode_rounds_before_truncating :
  F32.valid rounds_up = true
  /\ F32.le F32.minus_one rounds_up = true
  /\ F32.le rounds_up F32.one = true
  /\ clamp rounds_up = rounds_up
  /\ F32.to_Q (clamp rounds_up) = Some (16760831 # 16777216)
  /\ (inject_Z 32734 < (32767 # 1) * (16760831 # 16777216))%Q
  /\ ((32767 # 1) * (16760831 # 16777216) < inject_Z 32735)%Q
  /\ Z.quot (Qnum ((32767 # 1) * (16760831 # 16777216)))
            (Zpos (Qden ((32767 # 1) * (16760831 # 16777216)))) = 32734
  /\ Int16.lo_byte 32734 = xde /\ Int16.hi_byte 32734 = x7f
  /\ has_value (F32.mul (clamp rounds_up) F32.c32767) (32735 # 1)
  /\ sample_to_int16 rounds_up = Some 32735
  /\ encode [rounds_up] = Some [xdf; x7f]
  /\ Int16.of_bytes xdf x7f = 32735.
Proof.
  repeat (split; [reflexivity |]).
  split; [eexists; split; [reflexivity | vm_compute; reflexivity] |].
  repeat (split; [reflexivity |]). reflexivity.
Qed.

(** C2, amended: encoding valid floats succeeds, and for every index [i] the
    bytes at the offsets [2i] and [2i+1] are the low and the high byte of
    the signed 16-bit integer [v] obtained by clamping [samples[i]] to
    [[-1.0, 1.0]] (giving [c]), multiplying [c] by [32767.0f] in binary32
    arithmetic and truncating the rounded product toward zero.  The
    rounded product is the exact one up to a relative error of [2^-24] or
    up to an absolute error of [2^-150]; [v] is less than one away from
    the exact product, is the exact product when that is an integer, and
    is the exact product truncated toward zero or the next integer away
    from zero. *)
Theorem encode_sample_bytes (samples : list spec_float) :
  Forall (fun s => F32.valid s = true) samples ->
  exists out,
    encode samples = Some out
    /\ forall i s, samples !! i = Some s ->
         exists c v,
           c = clamp s
           /\ is_clamped s c
           /\ Int16.of_float (F32.mul c F32.c32767) = Some v
           /\ stored_for c v
           /\ out !! (2 * i)%nat = Some (Int16.lo_byte v)
           /\ out !! (2 * i + 1)%nat = Some (Int16.hi_byte v)
           /\ Int16.of_bytes (Int16.lo_byte v) (Int16.hi_byte v) = v
           /\ Int16.unsigned_of_byte (Int16.lo_byte v)
              + 256 * Int16.unsigned_of_byte (Int16.hi_byte v) = v mod 65536.
Proof.
  intros Hvalid.
  destruct (encode_spec samples Hvalid) as (out & Hout & _ & Hbytes).
  exists out. split; [exact Hout |].
  intros i s Hs. destruct (Hbytes i s Hs) as (v & Hv & Hrange & Hlo & Hhi).
  exists (clamp s), v.
  split; [reflexivity |]. split; [apply clamp_is_clamped |].
  split; [exact Hv |].
  split; [exact (stored_for_sample s v (Forall_lookup_1 _ _ _ _ Hvalid Hs) Hv) |].
  pose proof (store_load v ltac:(lia)) as Hsl.
  destruct (of_bytes_range (Int16.lo_byte v) (Int16.hi_byte v)) as [_ Hcong].
  rewrite Hsl in Hcong.
  repeat split; (assumption || (symmetry; assumption)).
Qed.

Lemma encode_sample_bytes_witness :
  Forall (fun s => F32.valid s = true) [rounds_up; minus_two; S754_nan]
  /\ exists out,
       encode [rounds_up; minus_two; S754_nan] = Some out
       /\ forall i s, [rounds_up; minus_two; S754_nan] !! i = Some s ->
            exists c v,
              c = clamp s
              /\ is_clamped s c
              /\ Int16.of_float (F32.mul c F32.c32767) = Some v
              /\ stored_for c v
              /\ out !! (2 * i)%nat = Some (Int16.lo_byte v)
              /\ out !! (2 * i + 1)%nat = Some (Int16.hi_byte v)
              /\ Int16.of_bytes (Int16.lo_byte v) (Int16.hi_byte v) = v
              /\ Int16.unsigned_of_byte (Int16.lo_byte v)
                 + 256 * Int16.unsigned_of_byte (Int16.hi_byte v) = v mod 65536.
Proof.
  split; [repeat constructor |].
  apply (encode_sample_bytes [rounds_up; minus_two; S754_nan]).
  repeat constructor.
Defined.
